(** * Zonaprop scraper: feature parsing, detail-area resolution, export rows

    A shallow embedding of [src/src/scraper.py] and
    [src/zonaprop_scraper/zonaprop_excel_export.py].

    Modelling conventions.
    - A Python [str] is the list of its code points ([pystr]); literals are
      written [u "..."] and decoded from the UTF-8 bytes of the Rocq string.
    - A Python [float] is the rational it denotes ([Q], kept reduced);
      rounding is outside the model.  The program only tests floats against
      [None], for truthiness (non-zero) and for [> 0], and forms one
      quotient.  The exceptions of the conversions are in the model:
      [float] of an integer beyond the range of a double raises
      [OverflowError], and [int] of a string of more than 4300 digits
      raises [ValueError].
    - A [dict] with free keys is a [gmap]; a [dict] with a fixed key set
      (the three area fields, a detail record, an export row) is a record of
      options, [d.get(k)] being the field.
    - [try]/[except] is an explicit result type [exc]; a loop that may
      run for ever takes a bound on its iterations and answers [None] when
      the bound does not suffice.
    - The page fetcher, the HTML parser, the JSON decoder and the URL
      library are external: a page is the view the extractors query, and
      the fetcher and the URL canonicaliser are section variables.
    - [print] and [time.sleep] are left out. *)

From Stdlib Require Import QArith Ascii String.
From stdpp Require Import gmap list strings pretty.

Local Open Scope N_scope.
Local Open Scope list_scope.

(** ** Python strings *)

Module PyStr.

Abbreviation pystr := (list N).

(** Decoder for literals: UTF-8 bytes to code points. *)
Fixpoint utf8_decode (bs : list N) : pystr :=
  match bs with
  | [] => []
  | b :: r =>
      if b <? 128 then b :: utf8_decode r
      else match r with
           | [] => []
           | c1 :: r1 =>
               if b <? 224 then ((b - 192) * 64 + (c1 - 128)) :: utf8_decode r1
               else match r1 with
                    | [] => []
                    | c2 :: r2 =>
                        if b <? 240
                        then ((b - 224) * 4096 + (c1 - 128) * 64 + (c2 - 128)) :: utf8_decode r2
                        else match r2 with
                             | [] => []
                             | c3 :: r3 =>
                                 ((b - 240) * 262144 + (c1 - 128) * 4096
                                  + (c2 - 128) * 64 + (c3 - 128)) :: utf8_decode r3
                             end
                    end
           end
  end.

Fixpoint bytes_of (s : string) : list N :=
  match s with
  | EmptyString => []
  | String a r => N_of_ascii a :: bytes_of r
  end.

Definition u (s : string) : pystr := utf8_decode (bytes_of s).

(** [str.isspace] / [\s]: the Unicode white-space code points. *)
Definition is_space (c : N) : bool :=
  ((9 <=? c) && (c <=? 13)) || ((28 <=? c) && (c <=? 32))
  || (c =? 133) || (c =? 160) || (c =? 5760)
  || ((8192 <=? c) && (c <=? 8202))
  || (c =? 8232) || (c =? 8233) || (c =? 8239) || (c =? 8287) || (c =? 12288).

(** First code point of every run of ten decimal digits (category Nd,
    Unicode 14): [\d], [int] and [float] accept all of them. *)
Definition digit_zeros : list N :=
  [48; 1632; 1776; 1984; 2406; 2534; 2662; 2790; 2918; 3046; 3174; 3302;
   3430; 3558; 3664; 3792; 3872; 4160; 4240; 6112; 6160; 6470; 6608; 6784;
   6800; 6992; 7088; 7232; 7248; 42528; 43216; 43264; 43472; 43504; 43600;
   44016; 65296; 66720; 68912; 69734; 69872; 69942; 70096; 70384; 70736;
   70864; 71248; 71360; 71472; 71904; 72016; 72784; 73040; 73120; 92768;
   92864; 93008; 120782; 120792; 120802; 120812; 120822; 123200; 123632;
   125264; 130032].

Definition digit_value (c : N) : option N :=
  (fun z => c - z) <$> List.find (fun z => (z <=? c) && (c <? z + 10)) digit_zeros.

Definition is_digit (c : N) : bool :=
  match digit_value c with Some _ => true | None => false end.

(** Simple lower-case mapping of one code point, as the regex engine uses
    it.  The table covers ASCII, Latin-1 and the three code points outside
    them whose lower case is an ASCII or Latin-1 letter; every other code
    point is left as it is. *)
Definition tolower (c : N) : N :=
  if (65 <=? c) && (c <=? 90) then c + 32
  else if (192 <=? c) && (c <=? 222) && negb (c =? 215) then c + 32
  else if c =? 304 then 105
  else if c =? 8490 then 107
  else if c =? 8491 then 229
  else c.

(** [str.lower]: as [tolower], except that U+0130 becomes two code points. *)
Definition lower (s : pystr) : pystr :=
  flat_map (fun c => if c =? 304 then [105; 775] else [tolower c]) s.

Fixpoint lstrip (s : pystr) : pystr :=
  match s with
  | c :: r => if is_space c then lstrip r else s
  | [] => []
  end.

Definition rstrip (s : pystr) : pystr := rev (lstrip (rev s)).
Definition strip (s : pystr) : pystr := rstrip (lstrip s).

(** [s.rstrip(chars)] *)
Fixpoint lstrip_chars (cs : list N) (s : pystr) : pystr :=
  match s with
  | c :: r => if bool_decide (c ∈ cs) then lstrip_chars cs r else s
  | [] => []
  end.
Definition rstrip_chars (cs : list N) (s : pystr) : pystr :=
  rev (lstrip_chars cs (rev s)).

Fixpoint startswith (p s : pystr) : bool :=
  match p, s with
  | [], _ => true
  | a :: p', b :: s' => (a =? b) && startswith p' s'
  | _ :: _, [] => false
  end.

(** [p in s] *)
Fixpoint contains (p s : pystr) : bool :=
  startswith p s || match s with [] => false | _ :: s' => contains p s' end.

(** [s.replace(old, new)] for a one-character [old]. *)
Definition replace1 (old : N) (new : pystr) (s : pystr) : pystr :=
  flat_map (fun c => if c =? old then new else [c]) s.

(** The leading decimal digits of [s], and what follows them. *)
Fixpoint take_digits (s : pystr) : pystr :=
  match s with
  | c :: r => if is_digit c then c :: take_digits r else []
  | [] => []
  end.

Fixpoint drop_digits (s : pystr) : pystr :=
  match s with
  | c :: r => if is_digit c then drop_digits r else s
  | [] => []
  end.

(** [str(n)] for an integer. *)
Definition str_nat (n : nat) : pystr := bytes_of (pretty n).
Definition str_Z (z : Z) : pystr := bytes_of (pretty z).

End PyStr.
Import PyStr.

(** ** Regular expressions

    The fragment of Python's [re] the program uses, with its backtracking
    semantics: ordered alternation, greedy repetition, capturing groups. *)

Module Re.

Inductive cls := Digit | Space | OneOf (cs : list N).

Inductive regex :=
| Eps
| Lit (c : N)
| Cls (k : cls)
| Cat (r1 r2 : regex)
| Alt (r1 r2 : regex)
| Star (r : regex)
| Grp (n : nat) (r : regex).

Definition Plus (r : regex) : regex := Cat r (Star r).
Definition Opt (r : regex) : regex := Alt r Eps.
Definition lits (s : pystr) : regex := foldr (fun c r => Cat (Lit c) r) Eps s.
Definition alts (rs : list regex) (last : regex) : regex := foldr Alt last rs.

Definition cls_match (k : cls) (c : N) : bool :=
  match k with
  | Digit => is_digit c
  | Space => is_space c
  | OneOf cs => bool_decide (c ∈ cs)
  end.

(** Under IGNORECASE a literal matches every code point whose lower case
    is in the class of the literal's lower case.  Of the classes with more
    than one lower-case member only those of [i] and [s] are listed: no
    other letter of such a class occurs in a pattern of the program. *)
Definition case_class (p : N) : list N :=
  if p =? 115 then [115; 383] else if p =? 105 then [105; 305] else [p].

Definition lit_match (ic : bool) (p c : N) : bool :=
  if ic then bool_decide (tolower c ∈ case_class (tolower p)) else c =? p.

Definition caps := list (nat * pystr).

Definition group (n : nat) (c : caps) : option pystr :=
  snd <$> List.find (fun e => Nat.eqb (fst e) n) c.

Section Matcher.
Context {A : Type}.
Variable ic : bool.

(** Greedy repetition of [body]: one more round when it matches and
    consumes something, the continuation otherwise. *)
Fixpoint star_loop (body : pystr -> caps -> (pystr -> caps -> option A) -> option A)
    (k : pystr -> caps -> option A) (n : nat) (s : pystr) (c : caps) : option A :=
  match n with
  | O => k s c
  | S n' =>
      match body s c (fun s1 c1 =>
               if (length s1 <? length s)%nat then star_loop body k n' s1 c1 else None) with
      | Some a => Some a
      | None => k s c
      end
  end.

Fixpoint mt (r : regex) (s : pystr) (c : caps)
    (k : pystr -> caps -> option A) {struct r} : option A :=
  match r with
  | Eps => k s c
  | Lit p =>
      match s with
      | x :: s' => if lit_match ic p x then k s' c else None
      | [] => None
      end
  | Cls cl =>
      match s with
      | x :: s' => if cls_match cl x then k s' c else None
      | [] => None
      end
  | Cat r1 r2 => mt r1 s c (fun s1 c1 => mt r2 s1 c1 k)
  | Alt r1 r2 =>
      match mt r1 s c k with
      | Some a => Some a
      | None => mt r2 s c k
      end
  | Star r1 => star_loop (mt r1) k (length s) s c
  | Grp n r1 =>
      mt r1 s c (fun s1 c1 => k s1 ((n, take (length s - length s1)%nat s) :: c1))
  end.
End Matcher.

Record rmatch := { m_text : pystr; m_caps : caps; m_rest : pystr }.

(** A match anchored at the start of [s]. *)
Definition match_at (ic : bool) (r : regex) (s : pystr) : option rmatch :=
  mt ic r s [] (fun s1 c1 =>
    Some {| m_text := take (length s - length s1)%nat s; m_caps := c1; m_rest := s1 |}).

(** [re.search]: the leftmost match. *)
Fixpoint search (ic : bool) (r : regex) (s : pystr) : option rmatch :=
  match match_at ic r s with
  | Some m => Some m
  | None => match s with [] => None | _ :: s' => search ic r s' end
  end.

(** The non-overlapping matches from left to right. *)
Fixpoint finditer_go (fuel : nat) (ic : bool) (r : regex) (s : pystr) : list rmatch :=
  match fuel with
  | O => []
  | S fuel' =>
      match match_at ic r s with
      | Some m =>
          m :: (if (length (m_rest m) <? length s)%nat
                then finditer_go fuel' ic r (m_rest m)
                else match s with [] => [] | _ :: s' => finditer_go fuel' ic r s' end)
      | None => match s with [] => [] | _ :: s' => finditer_go fuel' ic r s' end
      end
  end.

Definition finditer (ic : bool) (r : regex) (s : pystr) : list rmatch :=
  finditer_go (S (length s)) ic r s.

(** A group of [findall]'s tuples: the empty string when it took no part. *)
Definition grp (n : nat) (m : rmatch) : pystr := default [] (group n (m_caps m)).

(** What a match is, without the search order: [mat ic r w c c'] when
    [r] can match the text [w], turning the captures [c] into [c']. *)
Inductive mat (ic : bool) : regex -> pystr -> caps -> caps -> Prop :=
| mat_eps c : mat ic Eps [] c c
| mat_lit p x c : lit_match ic p x = true -> mat ic (Lit p) [x] c c
| mat_cls k x c : cls_match k x = true -> mat ic (Cls k) [x] c c
| mat_cat r1 r2 w1 w2 c c1 c2 :
    mat ic r1 w1 c c1 -> mat ic r2 w2 c1 c2 -> mat ic (Cat r1 r2) (w1 ++ w2) c c2
| mat_alt_l r1 r2 w c c1 : mat ic r1 w c c1 -> mat ic (Alt r1 r2) w c c1
| mat_alt_r r1 r2 w c c1 : mat ic r2 w c c1 -> mat ic (Alt r1 r2) w c c1
| mat_star_nil r c : mat ic (Star r) [] c c
| mat_star_cons r w1 w2 c c1 c2 :
    mat ic r w1 c c1 -> mat ic (Star r) w2 c1 c2 -> mat ic (Star r) (w1 ++ w2) c c2
| mat_grp n r w c c1 : mat ic r w c c1 -> mat ic (Grp n r) w c ((n, w) :: c1).

(** A matcher [f] implements [r] when each of its answers comes from a
    match of [r] on a prefix and the continuation on the rest. *)
Definition sound_for {A} (ic : bool) (r : regex)
    (f : pystr -> caps -> (pystr -> caps -> option A) -> option A) : Prop :=
  forall s c k a, f s c k = Some a ->
    exists w s' c', s = w ++ s' /\ mat ic r w c c' /\ k s' c' = Some a.

(** A pattern letter that is its own lower case, is no white space and
    is not [i]: under IGNORECASE it matches its two cases only, and [s]
    the long s as well. *)
Definition plain (p : N) : bool :=
  (tolower p =? p) && negb (p =? 105) && negb (p =? 383) && negb (is_space p).

(** The literal strings of a pattern built from literals, concatenation
    and alternation only. *)
Fixpoint spellings (r : regex) : list pystr :=
  match r with
  | Eps => [[]]
  | Lit p => [[p]]
  | Cat r1 r2 => w1 ← spellings r1; w2 ← spellings r2; [w1 ++ w2]
  | Alt r1 r2 => spellings r1 ++ spellings r2
  | _ => []
  end.

(** The lower-case forms of the texts a pattern string of plain letters
    matches under IGNORECASE: each [s] as itself or as the long s. *)
Fixpoint long_s_variants (pat : pystr) : list pystr :=
  match pat with
  | [] => [[]]
  | p :: pat =>
      v ← long_s_variants pat;
      if p =? 115 then [p :: v; 383 :: v] else [p :: v]
  end.

(** A pattern without groups, which leaves the captures alone. *)
Fixpoint groupless (r : regex) : bool :=
  match r with
  | Eps | Lit _ | Cls _ => true
  | Cat r1 r2 | Alt r1 r2 => groupless r1 && groupless r2
  | Star r1 => groupless r1
  | Grp _ _ => false
  end.

Fixpoint literal_only (r : regex) : bool :=
  match r with
  | Eps | Lit _ => true
  | Cat r1 r2 | Alt r1 r2 => literal_only r1 && literal_only r2
  | _ => false
  end.

(** [\d+(?:[\.,]\d+)*] *)
Definition number_re : regex :=
  Cat (Plus (Cls Digit)) (Star (Cat (Cls (OneOf (u ".,"))) (Plus (Cls Digit)))).

(** [\d+\.?\d+] *)
Definition count_re : regex :=
  Cat (Plus (Cls Digit)) (Cat (Opt (Lit 46)) (Plus (Cls Digit))).

End Re.
Import Re.

(** ** Python values, exceptions *)

Inductive pyval := PNone | PInt (z : Z) | PStr (s : pystr).

#[global] Instance pyval_eq_dec : EqDecision pyval.
Proof. solve_decision. Defined.

(** [bool(v)] *)
Definition truthy (v : pyval) : bool :=
  match v with
  | PNone => false
  | PInt z => negb (z =? 0)%Z
  | PStr s => match s with [] => false | _ => true end
  end.

(** [a or b] *)
Definition por (a b : pyval) : pyval := if truthy a then a else b.

(** [d.get(k)] on a dictionary of values. *)
Definition dget (d : gmap pystr pyval) (k : pystr) : pyval := default PNone (d !! k).

Record exn := { exn_type : pystr; exn_msg : pystr }.

Inductive exc (A : Type) := Ok (a : A) | Raise (e : exn).
Arguments Ok {A} a.
Arguments Raise {A} e.

#[global] Instance exc_ret : MRet exc := fun A a => Ok a.
#[global] Instance exc_bind : MBind exc :=
  fun A B f m => match m with Ok a => f a | Raise e => Raise e end.

Definition IndexError : exn :=
  {| exn_type := u "IndexError"; exn_msg := u "list index out of range" |}.

(** [l[0]] *)
Definition first {A} (l : list A) : exc A :=
  match l with x :: _ => Ok x | [] => Raise IndexError end.

(** The value of a string of decimal digits. *)
Definition int_of_digits (s : pystr) : N :=
  fold_left (fun acc c => 10 * acc + default 0 (digit_value c)) s 0.

(** [int(s)] as CPython 3.11 runs it on a string of decimal digits: a
    string of more than 4300 characters is refused with [ValueError]. *)
Definition ValueError (digits : nat) : exn :=
  {| exn_type := u "ValueError";
     exn_msg := u "Exceeds the limit (4300 digits) for integer string conversion: value has "
                ++ str_nat digits
                ++ u " digits; use sys.set_int_max_str_digits() to increase the limit" |}.

Definition int_of_text (s : pystr) : exc N :=
  if (4300 <? length s)%nat then Raise (ValueError (length s))
  else Ok (int_of_digits s).

(** ** src/src/scraper.py *)

Module Scraper.

Definition PAGE_URL_SUFFIX : pystr := u "-pagina-".
Definition HTML_EXTENSION : pystr := u ".html".

Definition FEATURE_UNIT_DICT : gmap pystr pystr :=
  list_to_map
    [ (u "m²", u "square_meters_area");
      (u "amb", u "rooms");
      (u "dorm", u "bedrooms");
      (u "baño", u "bathrooms");
      (u "baños", u "bathrooms");
      (u "coch", u "parking") ].

Definition LABEL_DICT : gmap pystr pystr :=
  list_to_map
    [ (u "POSTING_CARD_PRICE", u "price");
      (u "expensas", u "expenses");
      (u "POSTING_CARD_LOCATION", u "location");
      (u "POSTING_CARD_DESCRIPTION", u "description") ].

(** *** parse_features *)

Definition normalize_number (raw : pystr) : pystr :=
  replace1 44 (u ".") (replace1 46 [] (strip raw)).

Definition normalize_unit (raw : pystr) : pystr :=
  let raw := rstrip_chars (u ".") (lower (strip raw)) in
  if bool_decide (raw ∈ [u "m²"; u "m2"]) then u "m²"
  else if bool_decide (raw ∈ [u "amb"; u "ambs"]) then u "amb"
  else if bool_decide (raw ∈ [u "dorm"; u "dorms"]) then u "dorm"
  else if bool_decide (raw ∈ [u "baño"; u "baños"]) then u "baños"
  else if bool_decide (raw ∈ [u "coch"; u "cocheras"]) then u "coch"
  else raw.

Definition area_kind (qualifier : pystr) : option pystr :=
  match qualifier with
  | [] => None
  | _ =>
      let q := rstrip_chars (u ".") (lower (strip qualifier)) in
      if startswith (u "tot") q then Some (u "square_meters_total")
      else if startswith (u "cub") q then Some (u "square_meters_covered")
      else if startswith (u "terr") q then Some (u "square_meters_land")
      else None
  end.

Definition unit_re : regex :=
  alts [ lits (u "m²"); lits (u "m2");
         Cat (lits (u "amb")) (Opt (Lit 46));
         Cat (lits (u "dorm")) (Opt (Lit 46));
         Cat (lits (u "baño")) (Opt (Lit 115));
         lits (u "baño") ]
       (Cat (lits (u "coch")) (Opt (Lit 46))).

Definition qualifier_re : regex :=
  alts [ Cat (lits (u "tot")) (Opt (Lit 46));
         lits (u "totales");
         Cat (lits (u "cub")) (Opt (Lit 46));
         lits (u "cubiertos");
         Cat (lits (u "terr")) (Opt (Lit 46)) ]
       (lits (u "terreno")).

(** The compiled [pattern], used with [re.IGNORECASE]. *)
Definition pattern : regex :=
  Cat (Grp 1 number_re)
   (Cat (Star (Cls Space))
    (Cat (Grp 2 unit_re)
         (Opt (Cat (Star (Cls Space)) (Grp 3 qualifier_re))))).

(** [pattern.findall(text)] *)
Definition findall_features (text : pystr) : list (pystr * pystr * pystr) :=
  map (fun m => (grp 1 m, grp 2 m, grp 3 m)) (finditer true pattern text).

Definition features_appearance0 : gmap pystr nat :=
  list_to_map
    [ (u "square_meters_area", 0%nat);
      (u "square_meters_total", 0%nat);
      (u "square_meters_covered", 0%nat);
      (u "square_meters_land", 0%nat);
      (u "rooms", 0%nat);
      (u "bedrooms", 0%nat);
      (u "bathrooms", 0%nat);
      (u "parking", 0%nat) ].

(** The key a token is filed under, before the occurrence index. *)
Definition base_key_of (raw_unit raw_qual : pystr) : pystr :=
  let unit := normalize_unit raw_unit in
  let base_key :=
    if bool_decide (unit = u "m²")
    then Some (default (u "square_meters_area") (area_kind raw_qual))
    else FEATURE_UNIT_DICT !! unit in
  match base_key with
  | Some (c :: b) => c :: b
  | _ => unit
  end.

Definition suffixed (base_key : pystr) (idx : nat) : pystr :=
  base_key ++ u "_" ++ str_nat idx.

(** One iteration of the loop over the matches. *)
Definition features_step (st : gmap pystr nat * gmap pystr pystr)
    (tok : pystr * pystr * pystr) : gmap pystr nat * gmap pystr pystr :=
  let '(features_appearance, features) := st in
  let '(raw_value, raw_unit, raw_qual) := tok in
  let value := normalize_number raw_value in
  let base_key := base_key_of raw_unit raw_qual in
  match features_appearance !! base_key with
  | None => (features_appearance, <[base_key := value]> features)
  | Some idx =>
      (<[base_key := S idx]> features_appearance,
       <[suffixed base_key idx := value]> features)
  end.

Definition parse_features (text : pystr) : gmap pystr pystr :=
  snd (fold_left features_step (findall_features text) (features_appearance0, ∅)).

(** The base field and the value of a token, and the mapping the
    specification describes: the token at position [i] is filed under its
    base field followed by the number of earlier tokens with that base
    field. *)
Definition token_base (tok : pystr * pystr * pystr) : pystr :=
  base_key_of (snd (fst tok)) (snd tok).

Definition token_value (tok : pystr * pystr * pystr) : pystr :=
  normalize_number (fst (fst tok)).

Definition occurrences (base_key : pystr) (toks : list (pystr * pystr * pystr)) : nat :=
  length (List.filter (fun tok => bool_decide (token_base tok = base_key)) toks).

Definition indexed_key (toks : list (pystr * pystr * pystr)) (i : nat)
    (tok : pystr * pystr * pystr) : pystr :=
  suffixed (token_base tok) (occurrences (token_base tok) (take i toks)).

Definition indexed (toks : list (pystr * pystr * pystr)) : list (pystr * pystr) :=
  imap (fun i tok => (indexed_key toks i tok, token_value tok)) toks.

(** The fields [features_appearance] counts, and the units
    [normalize_unit] maps the spellings to. *)
Definition counted_fields : list pystr :=
  [ u "square_meters_area"; u "square_meters_total"; u "square_meters_covered";
    u "square_meters_land"; u "rooms"; u "bedrooms"; u "bathrooms"; u "parking" ].

Definition canonical_units : list pystr :=
  [ u "m²"; u "amb"; u "dorm"; u "baños"; u "coch" ].

(** The unit of a token as the pattern captured it, and the key the loop
    files the token under: with the occurrence index when its base field
    is counted, the bare base key otherwise.  The later of two entries of
    [keyed] with the same key is the one that stays. *)
Definition token_unit (tok : pystr * pystr * pystr) : pystr := snd (fst tok).

Definition token_key (toks : list (pystr * pystr * pystr)) (i : nat)
    (tok : pystr * pystr * pystr) : pystr :=
  if bool_decide (token_base tok ∈ counted_fields) then indexed_key toks i tok
  else token_base tok.

Definition keyed (toks : list (pystr * pystr * pystr)) : list (pystr * pystr) :=
  imap (fun i tok => (token_key toks i tok, token_value tok)) toks.

(** *** parse_currency_value *)

(** [(USD)|(ARS)|(\$)] *)
Definition currency_re : regex :=
  Alt (Grp 1 (lits (u "USD"))) (Alt (Grp 2 (lits (u "ARS"))) (Grp 3 (Lit 36))).

(** The body of the [try] block. *)
Definition parse_currency_try (text : pystr) : exc (Z * pystr) :=
  currency_value ← first (map m_text (finditer false count_re text));
  let currency_value := replace1 46 [] currency_value in
  currency_value ← int_of_text currency_value;
  let currency_value := Z.of_N currency_value in
  currency_type ← first (map (fun m => [grp 1 m; grp 2 m; grp 3 m])
                             (finditer false currency_re text));
  currency_type ← first (List.filter (fun x => negb (bool_decide (x = []))) currency_type);
  mret (currency_value, currency_type).

Definition parse_currency_value (text : pystr) : pyval * pyval :=
  match parse_currency_try text with
  | Ok (currency_value, currency_type) => (PInt currency_value, PStr currency_type)
  | Raise _ => (PStr text, PNone)
  end.

Definition parse_text (text : pystr) : pystr :=
  strip (replace1 9 [] (replace1 10 [] text)).

(** *** parse_estate *)

(** A listing block as [parse_estate] queries it: the [data-to-posting]
    attribute and, in document order, the [data-qa] label and the text of
    every descendant that has one. *)
Record post := { data_to_posting : option pystr; data_qa : list (pystr * pystr) }.

(** What Beautiful Soup's [get_attribute_list] returns for an attribute
    the element does not have: the one-element list holding [None] in
    some releases, the empty list in others. *)
Inductive missing_attribute := AsNone | AsEmptyList.

Definition get_attribute_list (bs4 : missing_attribute) (attr : option pystr)
    : list pyval :=
  match attr with
  | Some s => [PStr s]
  | None => match bs4 with AsNone => [PNone] | AsEmptyList => [] end
  end.

Definition label_of (label : pystr) : pystr := default [] (LABEL_DICT !! label).

Definition estate_field (estate : gmap pystr pyval) (data : pystr * pystr)
    : gmap pystr pyval :=
  let '(label, text) := data in
  if startswith (u "CARD_") label || bool_decide (label ∈ [u "POSTING_CARD_PUBLISHER"])
  then estate
  else if bool_decide (label ∈ [u "POSTING_CARD_PRICE"; u "expensas"]) then
    let '(currency_value, currency_type) := parse_currency_value text in
    <[label_of label ++ u "_" ++ u "type" := currency_type]>
      (<[label_of label ++ u "_" ++ u "value" := currency_value]> estate)
  else if bool_decide (label ∈ [u "POSTING_CARD_LOCATION"; u "POSTING_CARD_DESCRIPTION"]) then
    <[label_of label := PStr (parse_text text)]> estate
  else if bool_decide (label ∈ [u "POSTING_CARD_FEATURES"]) then
    (PStr <$> parse_features text) ∪ estate
  else <[label := PStr text]> estate.

Definition parse_estate (bs4 : missing_attribute) (estate_post : post)
    : exc (gmap pystr pyval) :=
  url ← first (get_attribute_list bs4 (data_to_posting estate_post));
  mret (fold_left estate_field (data_qa estate_post) (<[u "url" := url]> ∅)).

(** *** Pagination *)

(** A fetched listing page as the scraper queries it: the text of its
    [h1] elements and its listing blocks. *)
Record listing_page := { h1_texts : list pystr; estate_posts : list post }.

Section Crawl.
(** [BeautifulSoup(self.browser.get_text(url), 'lxml')] *)
Variable browser : pystr -> exc listing_page.
Variable bs4 : missing_attribute.
Variable base_url : pystr.

Definition page_url (page_number : nat) : pystr :=
  if Nat.eqb page_number 1 then base_url ++ HTML_EXTENSION
  else base_url ++ PAGE_URL_SUFFIX ++ str_nat page_number ++ HTML_EXTENSION.

Definition scrap_page (page_number : nat) : exc (list (gmap pystr pyval)) :=
  page ← browser (page_url page_number);
  mapM (parse_estate bs4) (estate_posts page).

Definition get_estates_quantity : exc N :=
  page ← browser (base_url ++ HTML_EXTENSION);
  h1 ← first (h1_texts page);
  estates_quantity ← first (map m_text (finditer false count_re h1));
  let estates_quantity := replace1 46 [] estates_quantity in
  int_of_text estates_quantity.

(** The state of the [while] loop; [fetched] logs the page numbers
    handed to [scrap_page]. *)
Record crawl := { page_number : nat; estates : list (gmap pystr pyval); fetched : list nat }.

(** The loop, run for at most [fuel] iterations: [None] when it is still
    running after them. *)
Fixpoint scrap_loop (fuel : nat) (estates_quantity : N) (st : crawl)
    : option (exc crawl) :=
  if (N.of_nat (length (estates st)) <? estates_quantity) then
    match fuel with
    | O => None
    | S fuel' =>
        match scrap_page (page_number st) with
        | Raise e => Some (Raise e)
        | Ok new =>
            scrap_loop fuel' estates_quantity
              {| page_number := S (page_number st);
                 estates := estates st ++ new;
                 fetched := fetched st ++ [page_number st] |}
        end
    end
  else Some (Ok st).

Definition scraped (st : crawl) : N := N.of_nat (length (estates st)).

(** The state after an iteration that fetched [new]. *)
Definition advance (st : crawl) (new : list (gmap pystr pyval)) : crawl :=
  {| page_number := S (page_number st);
     estates := estates st ++ new;
     fetched := fetched st ++ [page_number st] |}.

(** Number of cards [scrap_page] returns for a page, and for the [k]
    pages from page [p] on. *)
Definition page_cards (p : nat) : nat :=
  match scrap_page p with Ok new => length new | Raise _ => 0 end.

Fixpoint cards_from (p k : nat) : nat :=
  match k with
  | O => 0
  | S k' => page_cards p + cards_from (S p) k'
  end.

(** The cards of the [k] pages from page [p] on, in page order. *)
Fixpoint cards_of_pages (p k : nat) : list (gmap pystr pyval) :=
  match k with
  | O => []
  | S k' =>
      match scrap_page p with Ok new => new | Raise _ => [] end
      ++ cards_of_pages (S p) k'
  end.

Definition scrap_website (fuel : nat) : option (exc crawl) :=
  match get_estates_quantity with
  | Raise e => Some (Raise e)
  | Ok estates_quantity =>
      scrap_loop fuel estates_quantity {| page_number := 1; estates := []; fetched := [] |}
  end.
End Crawl.

End Scraper.

(** ** src/zonaprop_scraper/zonaprop_excel_export.py *)

Module ExcelExport.

(** *** Floats *)

(** [bool(x)] for a float. *)
Definition nonzero (q : Q) : bool := negb (Qnum q =? 0)%Z.

(** [a or b] on optional floats. *)
Definition for_ (a b : option Q) : option Q :=
  match a with
  | Some q => if nonzero q then a else b
  | None => b
  end.

(** [float(s)] for [s] made of decimal digits and full stops, which is all
    [_clean_number] passes to it: more than one full stop is a
    [ValueError] ([None]). *)
Definition float_of_decimal (s : pystr) : option Q :=
  let ip := take_digits s in
  match drop_digits s with
  | [] =>
      match ip with
      | [] => None
      | _ => Some (Qred (Z.of_N (int_of_digits ip) # 1))
      end
  | c :: fp =>
      if (c =? 46) && forallb is_digit fp && negb (bool_decide (ip ++ fp = [])) then
        Some (Qred (Z.of_N (int_of_digits (ip ++ fp))
                    # Z.to_pos (10 ^ Z.of_nat (length fp))))
      else None
  end.

(** [raw] is [None] or the text [str(raw)]. *)
Definition _clean_number (raw : option pystr) : option Q :=
  match raw with
  | None => None
  | Some raw =>
      let s := strip raw in
      match s with
      | [] => None
      | _ =>
          match search false number_re s with
          | None => None
          | Some m =>
              let s := m_text m in
              let s := replace1 44 (u ".") (replace1 46 [] s) in
              float_of_decimal s
          end
      end
  end.

(** [str(v)] for the values of a card, [None] staying [None]. *)
Definition str_pyval (v : pyval) : option pystr :=
  match v with
  | PNone => None
  | PInt z => Some (str_Z z)
  | PStr s => Some s
  end.

(** *** Area records *)

Record areas := { m2_total : option Q; m2_covered : option Q; m2_land : option Q }.

Inductive area_key := K_total | K_covered | K_land.

Definition aget (out : areas) (k : area_key) : option Q :=
  match k with
  | K_total => m2_total out
  | K_covered => m2_covered out
  | K_land => m2_land out
  end.

Definition aset (out : areas) (k : area_key) (v : option Q) : areas :=
  match k with
  | K_total => {| m2_total := v; m2_covered := m2_covered out; m2_land := m2_land out |}
  | K_covered => {| m2_total := m2_total out; m2_covered := v; m2_land := m2_land out |}
  | K_land => {| m2_total := m2_total out; m2_covered := m2_covered out; m2_land := v |}
  end.

Definition out0 : areas := {| m2_total := None; m2_covered := None; m2_land := None |}.

(** The early exit of the two HTML extractors. *)
Definition all_filled (out : areas) : bool :=
  match m2_total out, m2_covered out, m2_land out with
  | Some _, Some _, Some _ => true
  | _, _, _ => false
  end.

(** *** Icon features *)

(** An [li.icon-feature] element: the classes of its first [i] descendant
    ([None] when it has none, no classes when the attribute is missing)
    and its text. *)
Record icon_li := { li_icon : option (list pystr); li_text : pystr }.

(** The [if]/[elif] chain on the classes of the icon. *)
Definition icon_update (classes : list pystr) (val : Q) (out : areas) : areas :=
  if bool_decide (u "icon-scubierta" ∈ classes)
  then aset out K_covered (for_ (m2_covered out) (Some val))
  else if bool_decide (u "icon-stotal" ∈ classes)
  then aset out K_total (for_ (m2_total out) (Some val))
  else if bool_decide (u "icon-sterreno" ∈ classes)
  then aset out K_land (for_ (m2_land out) (Some val))
  else out.

Fixpoint icon_loop (lis : list icon_li) (out : areas) : areas :=
  match lis with
  | [] => out
  | li :: rest =>
      match li_icon li with
      | None => icon_loop rest out
      | Some classes =>
          match _clean_number (Some (li_text li)) with
          | None => icon_loop rest out
          | Some val =>
              let out := icon_update classes val out in
              if all_filled out then out else icon_loop rest out
          end
      end
  end.

Definition _parse_detail_areas_from_icon_features (lis : list icon_li) : areas :=
  icon_loop lis out0.

(** *** Labeled text *)

Definition label_map : list (pystr * area_key) :=
  [ (u "superficie total", K_total);
    (u "superficie cubierta", K_covered);
    (u "superficie del terreno", K_land);
    (u "superficie terreno", K_land);
    (u "terreno", K_land);
    (u "lote", K_land) ].

(** The number pattern as group 1, then [\s*(m²|m2)]; used with
    [re.IGNORECASE]. *)
Definition area_re : regex :=
  Cat (Grp 1 number_re)
      (Cat (Star (Cls Space)) (Grp 2 (Alt (lits (u "m²")) (lits (u "m2"))))).

Definition label_step (txt low : pystr) (out : areas) (e : pystr * area_key) : areas :=
  let '(lbl, key) := e in
  match aget out key with
  | Some _ => out
  | None =>
      if contains lbl low then
        match search true area_re txt with
        | Some m => aset out key (_clean_number (group 1 (m_caps m)))
        | None => out
        end
      else out
  end.

Fixpoint label_loop (candidates : list pystr) (out : areas) : areas :=
  match candidates with
  | [] => out
  | txt :: rest =>
      match txt with
      | [] => label_loop rest out
      | _ =>
          let low := lower txt in
          let out := fold_left (label_step txt low) label_map out in
          if all_filled out then out else label_loop rest out
      end
  end.

(** [candidates]: the stripped text of every [li], [div] and [section]. *)
Definition _parse_detail_areas_from_html (candidates : list pystr) : areas :=
  label_loop (take 2000 candidates) out0.

(** *** Structured metadata *)

(** What [json.loads] returns. *)
#[local] Unset Elimination Schemes.
Inductive json :=
| JNull
| JBool (b : bool)
| JInt (z : Z)
| JFloat (q : Q)
| JStr (s : pystr)
| JList (l : list json)
| JDict (d : list (pystr * json)).
#[local] Set Elimination Schemes.

Fixpoint jlookup (k : pystr) (d : list (pystr * json)) : option json :=
  match d with
  | [] => None
  | (k', v) :: r => if bool_decide (k' = k) then Some v else jlookup k r
  end.

(** [d.get(k)] *)
Definition jget (d : list (pystr * json)) (k : pystr) : json := default JNull (jlookup k d).

Definition jtruthy (v : json) : bool :=
  match v with
  | JNull => false
  | JBool b => b
  | JInt z => negb (z =? 0)%Z
  | JFloat q => nonzero q
  | JStr s => match s with [] => false | _ => true end
  | JList l => match l with [] => false | _ => true end
  | JDict d => match d with [] => false | _ => true end
  end.

Definition jor (a b : json) : json := if jtruthy a then a else b.

Fixpoint _walk_json (obj : json) : list (list (pystr * json)) :=
  match obj with
  | JDict d => d :: flat_map (fun '(_, v) => _walk_json v) d
  | JList l => flat_map _walk_json l
  | _ => []
  end.

Section Detail.
(** [str(v)] for a float, a list or a dictionary. *)
Variable str_other : json -> pystr.

(** [None], or [str(v)]. *)
Definition str_json (v : json) : option pystr :=
  match v with
  | JNull => None
  | JStr s => Some s
  | JInt z => Some (str_Z z)
  | JBool b => Some (if b then u "True" else u "False")
  | _ => Some (str_other v)
  end.

Definition known_keys : list (pystr * area_key) :=
  [ (u "floorSize", K_covered); (u "lotSize", K_land); (u "area", K_total) ].

Definition key_step (d : list (pystr * json)) (out : areas) (e : pystr * area_key)
    : areas :=
  let '(key, target) := e in
  match jlookup key d, aget out target with
  | None, _ => out
  | Some _, Some _ => out
  | Some v, None =>
      match v with
      | JDict vd =>
          let num := jor (jget vd (u "value")) (jget vd (u "@value")) in
          aset out target (_clean_number (str_json num))
      | JBool _ | JInt _ | JFloat _ | JStr _ =>
          aset out target (_clean_number (str_json v))
      | _ => out
      end
  end.

Definition property_step (out : areas) (item : json) : areas :=
  match item with
  | JDict item =>
      let name := lower (strip (default [] (str_json (jor (jget item (u "name")) (JStr []))))) in
      let val := jget item (u "value") in
      let out :=
        match m2_total out with
        | None =>
            if contains (u "superficie") name && contains (u "total") name
            then aset out K_total (_clean_number (str_json val)) else out
        | Some _ => out
        end in
      let out :=
        match m2_covered out with
        | None =>
            if contains (u "cubierta") name || contains (u "cubiertos") name
            then aset out K_covered (_clean_number (str_json val)) else out
        | Some _ => out
        end in
      match m2_land out with
      | None =>
          if contains (u "terreno") name || contains (u "lote") name
          then aset out K_land (_clean_number (str_json val)) else out
      | Some _ => out
      end
  | _ => out
  end.

Definition dict_step (out : areas) (d : list (pystr * json)) : areas :=
  let out := fold_left (key_step d) known_keys out in
  match jget d (u "additionalProperty") with
  | JList ap => fold_left property_step ap out
  | _ => out
  end.

Definition _parse_detail_areas_from_jsonld (blocks : list json) : areas :=
  fold_left dict_step (_walk_json (JList blocks)) out0.

(** *** parse_listing_detail *)

(** A detail page as the extractors query it. *)
Record detail_page := {
  pg_h1 : option pystr;
  pg_jsonld : list json;
  pg_icon_features : list icon_li;
  pg_candidates : list pystr
}.

Definition resolve_areas (page : detail_page) : areas :=
  let areas_jsonld := _parse_detail_areas_from_jsonld (pg_jsonld page) in
  let areas_icons := _parse_detail_areas_from_icon_features (pg_icon_features page) in
  let areas_labels := _parse_detail_areas_from_html (pg_candidates page) in
  {| m2_total := for_ (for_ (m2_total areas_icons) (m2_total areas_labels)) (m2_total areas_jsonld);
     m2_covered := for_ (for_ (m2_covered areas_icons) (m2_covered areas_labels)) (m2_covered areas_jsonld);
     m2_land := for_ (for_ (m2_land areas_icons) (m2_land areas_labels)) (m2_land areas_jsonld) |}.

(** [_normalize_url] on a [str], and the fetch and parse of a detail
    page. *)
Variable normalize_str : pystr -> exc pystr.
Variable browser : pystr -> exc detail_page.
(** [float(s)] on a [str]; [None] is a [ValueError]. *)
Variable float_str : pystr -> option Q.

Definition TypeError : exn :=
  {| exn_type := u "TypeError"; exn_msg := u "argument of type 'NoneType' is not iterable" |}.

(** [unescape(url)], the first thing [_normalize_url] does, raises on
    anything that is not a [str]. *)
Definition _normalize_url (url : pyval) : exc pystr :=
  match url with
  | PStr s => normalize_str s
  | _ => Raise TypeError
  end.

(** The dictionary [detail]. *)
Record detail := {
  d_link : option pystr;
  d_title : option pystr;
  d_areas : areas;
  d_detail_error : option pystr
}.

Definition parse_listing_detail (url : pystr) : exc detail :=
  url ← normalize_str url;
  page ← browser url;
  mret {| d_link := Some url; d_title := pg_h1 page;
          d_areas := resolve_areas page; d_detail_error := None |}.

(** *** export_search_to_excel *)

Record export_row := {
  link : option pystr;
  title : option pystr;
  location : pyval;
  price_value : pyval;
  price_type : pyval;
  expenses_value : pyval;
  expenses_type : pyval;
  row_m2_total : option Q;
  row_m2_covered : option Q;
  row_m2_land : option Q;
  precio_por_m2 : option Q;
  rooms : option Q;
  bedrooms : option Q;
  bathrooms : option Q;
  parking : option Q;
  description : pyval;
  detail_error : option pystr
}.

(** [cards[:max_listings]] *)
Definition slice_to {A} (l : list A) (n : Z) : list A :=
  if (n <? 0)%Z then take (Z.to_nat (Z.of_nat (length l) + n)) l
  else take (Z.to_nat n) l.

Definition add_link (c : gmap pystr pyval) : exc (gmap pystr pyval) :=
  match c !! u "url" with
  | Some url => l ← _normalize_url url; mret (<[u "link" := PStr l]> c)
  | None => mret c
  end.

Definition OverflowError : exn :=
  {| exn_type := u "OverflowError"; exn_msg := u "int too large to convert to float" |}.

(** [float(z)] for an integer: it raises once [z] rounds beyond the
    largest double. *)
Definition float_of_int (z : Z) : exc Q :=
  if (Z.abs z <? 2 ^ 1024 - 2 ^ 970)%Z then Ok (z # 1) else Raise OverflowError.

(** The [try] that computes [price_value_num]: its handler gives [None]
    for [TypeError] and [ValueError]; the [OverflowError] of an integer
    that is too large passes through it. *)
Definition price_value_num (price_value : pyval) : exc (option Q) :=
  match price_value with
  | PNone => Ok None
  | PInt z => p ← float_of_int z; mret (Some p)
  | PStr s => Ok (float_str s)
  end.

(** [price_value_num] in an iteration that goes on to build its row. *)
Definition price_num (price_value : pyval) : option Q :=
  match price_value_num price_value with
  | Ok p => p
  | Raise _ => None
  end.

Definition price_per_m2 (price_value_num denom : option Q) : option Q :=
  match price_value_num, denom with
  | Some p, Some d => if (0 <? Qnum d)%Z then Some (Qred (p / d)) else None
  | _, _ => None
  end.

Definition merge_row (card : gmap pystr pyval) (detail : detail) : export_row :=
  let m2_total :=
    for_ (m2_total (d_areas detail))
         (_clean_number (str_pyval (dget card (u "square_meters_total_0")))) in
  let m2_covered := m2_covered (d_areas detail) in
  let price_value := dget card (u "price_value") in
  let price_value_num := price_num price_value in
  let denom := for_ m2_covered m2_total in
  {| link := d_link detail;
     title := d_title detail;
     location := dget card (u "location");
     price_value := price_value;
     price_type := dget card (u "price_type");
     expenses_value := dget card (u "expenses_value");
     expenses_type := dget card (u "expenses_type");
     row_m2_total := m2_total;
     row_m2_covered := m2_covered;
     row_m2_land := m2_land (d_areas detail);
     precio_por_m2 := price_per_m2 price_value_num denom;
     rooms := _clean_number (str_pyval (dget card (u "rooms_0")));
     bedrooms := _clean_number (str_pyval (dget card (u "bedrooms_0")));
     bathrooms := _clean_number (str_pyval (dget card (u "bathrooms_0")));
     parking := _clean_number (str_pyval (dget card (u "parking_0")));
     description := dget card (u "description");
     detail_error := d_detail_error detail |}.

(** The [try]/[except Exception] around the detail fetch. *)
Definition detail_of (link : pystr) : exc detail :=
  match parse_listing_detail link with
  | Ok d => Ok d
  | Raise e =>
      l ← normalize_str link;
      mret {| d_link := Some l; d_title := None; d_areas := out0;
              d_detail_error := Some (exn_type e ++ u ": " ++ exn_msg e) |}
  end.

(** The loop that fills [rows].  The price is converted after the
    detail fetch and before the row is assembled; an exception of the
    conversion that its handler lets through ends the loop. *)
Fixpoint rows_of (cards : list (gmap pystr pyval)) : exc (list export_row) :=
  match cards with
  | [] => mret []
  | card :: rest =>
      let link := por (dget card (u "link")) (dget card (u "url")) in
      if truthy link then
        detail ← detail_of (default [] (str_pyval link));
        _ ← price_value_num (dget card (u "price_value"));
        rows ← rows_of rest;
        mret (merge_row card detail :: rows)
      else rows_of rest
  end.

(** [export_search_to_excel] from the result of [scrap_website] up to
    the data frame. *)
Definition export_rows (cards : list (gmap pystr pyval)) (max_listings : option Z)
    : exc (list export_row) :=
  cards ← mapM add_link cards;
  let cards := match max_listings with Some n => slice_to cards n | None => cards end in
  rows_of cards.
End Detail.

End ExcelExport.

(** * Sample inputs and the specification's readings *)

Module Samples.
Import Scraper.

(** A browser that serves a count of ten, an empty first page and ten
    listings on every other page. *)
Definition plain_post : post :=
  {| data_to_posting := Some (u "/propiedades/a.html"); data_qa := [] |}.

Definition gap_browser (url : pystr) : exc listing_page :=
  Ok {| h1_texts := [u "10 Casas en venta"];
        estate_posts := if bool_decide (url = u "casas.html") then []
                        else replicate 10 plain_post |}.

(** A browser that serves a count of 45 and twenty listings per page. *)
Definition twenty_browser (url : pystr) : exc listing_page :=
  Ok {| h1_texts := [u "45 Casas en venta"]; estate_posts := replicate 20 plain_post |}.

(** A browser whose first heading announces nine listings. *)
Definition nine_browser (url : pystr) : exc listing_page :=
  Ok {| h1_texts := [u "9 Casas en venta"]; estate_posts := [plain_post] |}.

(** A browser that serves the first page and fails on every other. *)
Definition broken_browser (url : pystr) : exc listing_page :=
  if bool_decide (url = u "casas.html")
  then Ok {| h1_texts := [u "45 Casas en venta"]; estate_posts := replicate 20 plain_post |}
  else Raise {| exn_type := u "TimeoutError"; exn_msg := u "timed out" |}.

(** The labels [parse_estate] passes over. *)
Definition ignored_label (label : pystr) : bool :=
  startswith (u "CARD_") label || bool_decide (label ∈ [u "POSTING_CARD_PUBLISHER"]).

(** A card the row loop makes a row of. *)
Definition has_link (card : gmap pystr pyval) : bool :=
  truthy (por (dget card (u "link")) (dget card (u "url"))).

(** A browser whose pages hold no listing at all. *)
Definition empty_browser (url : pystr) : exc listing_page :=
  Ok {| h1_texts := [u "45 Casas en venta"]; estate_posts := [] |}.

(** The feature string of the repository's test. *)
Definition test_features : pystr :=
  u "771 m² tot. | 8 amb. | 4 dorm. | 3 baños | 1 coch.".

Import ExcelExport.

(** The merge rule in the specification's words: the first value that is
    not [None], icons first, then labeled text, then structured metadata. *)
Definition first_non_null (icons labels jsonld : option Q) : option Q :=
  match icons, labels with
  | Some _, _ => icons
  | None, Some _ => labels
  | None, None => jsonld
  end.

(** A value [or] passes over: [None] or zero. *)
Definition skip_zero (v : option Q) : option Q :=
  match v with
  | Some q => if nonzero q then v else None
  | None => None
  end.

(** The price per square metre in the specification's words: the
    denominator is [m2_covered], or [m2_total] when [m2_covered] is
    absent; the quotient exists when the price and the denominator are
    present and the denominator is positive. *)
Definition spec_precio_por_m2 (price m2_covered m2_total : option Q) : option Q :=
  let denom := match m2_covered with Some _ => m2_covered | None => m2_total end in
  match price, denom with
  | Some p, Some d => if (0 <? Qnum d)%Z then Some (Qred (p / d)) else None
  | _, _ => None
  end.

(** Every field of an area record is [None] or at least zero. *)
Definition areas_nonneg (out : areas) : Prop :=
  forall key q, aget out key = Some q -> (0 <= q)%Q.

(** Stand-ins for the external parts: [str] of a float or container, a
    URL canonicaliser that finds every URL canonical already, a [float]
    that rejects every text. *)
Definition no_str (v : json) : pystr := [].
Definition canonical (url : pystr) : exc pystr := Ok url.
Definition no_float (s : pystr) : option Q := None.

Definition TimeoutError : exn :=
  {| exn_type := u "TimeoutError"; exn_msg := u "timed out" |}.

(** A browser on which every detail fetch fails. *)
Definition failing_browser (url : pystr) : exc detail_page := Raise TimeoutError.

(** A detail page of a plot with nothing built on it: the icon list
    reports a covered area of zero, the text block one of 200. *)
Definition plot_page : detail_page :=
  {| pg_h1 := Some (u "Terreno en venta");
     pg_jsonld := [];
     pg_icon_features :=
       [ {| li_icon := Some [u "icon-scubierta"]; li_text := u "0 m² cub." |} ];
     pg_candidates := [u "Superficie cubierta 200 m²"] |}.

(** A detail page whose metadata gives a floor size of zero and whose
    icon list gives a total area of 100. *)
Definition zero_floor_page : detail_page :=
  {| pg_h1 := Some (u "Lote en venta");
     pg_jsonld := [JDict [(u "floorSize", JStr (u "0"))]];
     pg_icon_features :=
       [ {| li_icon := Some [u "icon-stotal"]; li_text := u "100 m² tot." |} ];
     pg_candidates := [] |}.

(** A detail page with a covered area of 50 and no other area. *)
Definition flat_page : detail_page :=
  {| pg_h1 := Some (u "Departamento en venta");
     pg_jsonld := [];
     pg_icon_features :=
       [ {| li_icon := Some [u "icon-scubierta"]; li_text := u "50 m² cub." |} ];
     pg_candidates := [] |}.

(** The detail record of [flat_page]. *)
Definition flat_detail : detail :=
  {| d_link := Some (u "https://www.zonaprop.com.ar/propiedades/a.html");
     d_title := pg_h1 flat_page;
     d_areas := resolve_areas no_str flat_page;
     d_detail_error := None |}.

(** A listing block with a price and the features of the test, and the
    same block without its [data-to-posting] attribute. *)
Definition priced_post : post :=
  {| data_to_posting := Some (u "https://www.zonaprop.com.ar/propiedades/a.html");
     data_qa := [ (u "POSTING_CARD_PRICE", u "USD 100.000");
                  (u "POSTING_CARD_FEATURES", test_features) ] |}.

Definition urlless_post : post :=
  {| data_to_posting := None;
     data_qa := [ (u "POSTING_CARD_PRICE", u "USD 100.000") ] |}.

(** A card that has its URL and nothing else. *)
Definition url_card : gmap pystr pyval :=
  <[u "url" := PStr (u "https://www.zonaprop.com.ar/propiedades/a.html")]> ∅.

(** The denominator of the price per square metre as the code forms it:
    [m2_covered] unless it is [None] or zero, [m2_total] otherwise. *)
Definition denominator (m2_covered m2_total : option Q) : option Q :=
  match skip_zero m2_covered with
  | Some d => Some d
  | None => m2_total
  end.

(** A card the row loop turns into a row: its link is truthy, the URL
    canonicaliser accepts it and its price converts. *)
Definition linked (normalize_str : pystr -> exc pystr) (float_str : pystr -> option Q)
    (card : gmap pystr pyval) : Prop :=
  let link := por (dget card (u "link")) (dget card (u "url")) in
  truthy link = true
  /\ (exists l, normalize_str (default [] (str_pyval link)) = Ok l)
  /\ (exists p, price_value_num float_str (dget card (u "price_value")) = Ok p).

(** From the listing blocks of a page to the exported rows, with the
    stand-ins above. *)
Definition export_posts (bs4 : missing_attribute) (browser : pystr -> exc detail_page)
    (posts : list post) : exc (list export_row) :=
  cards ← mapM (parse_estate bs4) posts;
  export_rows no_str canonical browser no_float cards None.

End Samples.
Import Samples.

(** * Properties *)

(** ** Pagination *)

Module CrawlFacts.
Import Scraper.

Section Loop.
Variable browser : pystr -> exc listing_page.
Variable bs4 : missing_attribute.
Variable base_url : pystr.
Variable estates_quantity : N.

Abbreviation loop := (scrap_loop browser bs4 base_url).
Abbreviation page := (scrap_page browser bs4 base_url).

Lemma loop_exit fuel st :
  estates_quantity <= scraped st -> loop fuel estates_quantity st = Some (Ok st).
Proof.
  intros H. unfold scraped in H.
  destruct fuel; simpl; destruct (N.ltb_spec (N.of_nat (length (estates st))) estates_quantity);
    try reflexivity; lia.
Qed.

Lemma loop_iterate fuel st new :
  scraped st < estates_quantity -> page (page_number st) = Ok new ->
  loop (S fuel) estates_quantity st = loop fuel estates_quantity (advance st new).
Proof.
  intros H Hp. unfold scraped in H. simpl.
  destruct (N.ltb_spec (N.of_nat (length (estates st))) estates_quantity); [|lia].
  rewrite Hp. reflexivity.
Qed.

Lemma loop_starved st :
  scraped st < estates_quantity -> loop 0 estates_quantity st = None.
Proof.
  intros H. unfold scraped in H. simpl.
  destruct (N.ltb_spec (N.of_nat (length (estates st))) estates_quantity); [reflexivity|lia].
Qed.

Lemma scraped_advance st new :
  scraped (advance st new) = scraped st + N.of_nat (length new).
Proof. unfold scraped, advance; simpl. rewrite length_app. lia. Qed.

Hypothesis fetch_ok : forall n, exists new, page n = Ok new.

Lemma page_cards_ok n new : page n = Ok new -> page_cards browser bs4 base_url n = length new.
Proof. unfold page_cards. intros ->. reflexivity. Qed.

Lemma loop_reaches k : forall st,
  estates_quantity <= scraped st + N.of_nat (cards_from browser bs4 base_url (page_number st) k) ->
  exists st', loop k estates_quantity st = Some (Ok st').
Proof.
  induction k as [|k IH]; intros st H.
  - simpl in H. exists st. apply loop_exit. lia.
  - destruct (N.lt_ge_cases (scraped st) estates_quantity) as [Hlt|Hge].
    + destruct (fetch_ok (page_number st)) as [new Hnew].
      rewrite (loop_iterate _ _ _ Hlt Hnew).
      apply IH. rewrite scraped_advance. simpl in H |- *.
      rewrite (page_cards_ok _ _ Hnew) in H. lia.
    + exists st. apply loop_exit. exact Hge.
Qed.

Lemma loop_returned fuel : forall st r,
  loop fuel estates_quantity st = Some r ->
  exists k, estates_quantity
            <= scraped st + N.of_nat (cards_from browser bs4 base_url (page_number st) k).
Proof.
  induction fuel as [|fuel IH]; intros st r H.
  - destruct (N.lt_ge_cases (scraped st) estates_quantity) as [Hlt|Hge].
    + rewrite (loop_starved _ Hlt) in H. discriminate.
    + exists 0%nat. simpl. lia.
  - destruct (N.lt_ge_cases (scraped st) estates_quantity) as [Hlt|Hge].
    + destruct (fetch_ok (page_number st)) as [new Hnew].
      rewrite (loop_iterate _ _ _ Hlt Hnew) in H.
      destruct (IH _ _ H) as [k Hk]. exists (S k).
      rewrite scraped_advance in Hk. simpl in Hk |- *.
      rewrite (page_cards_ok _ _ Hnew). lia.
    + exists 0%nat. simpl. lia.
Qed.
End Loop.

(** C10, as amended.  When no fetch raises, the loop returns exactly when
    some finite run of pages brings the number of cards up to the target:
    an empty page in between does no harm.  When every page from the
    current one on is empty and the target is not yet reached, the loop
    runs for ever: it has no other exit. *)
Theorem scrap_loop_terminates_iff browser bs4 base_url estates_quantity st :
  (forall n, exists new, scrap_page browser bs4 base_url n = Ok new) ->
  ((exists fuel r, scrap_loop browser bs4 base_url fuel estates_quantity st = Some r)
   <-> (exists k, estates_quantity
                  <= N.of_nat (length (estates st))
                     + N.of_nat (cards_from browser bs4 base_url (page_number st) k)))
  /\ ((forall k, cards_from browser bs4 base_url (page_number st) k = 0%nat) ->
      N.of_nat (length (estates st)) < estates_quantity ->
      forall fuel, scrap_loop browser bs4 base_url fuel estates_quantity st = None).
Proof.
  intros Hok.
  assert (Hiff :
    (exists fuel r, scrap_loop browser bs4 base_url fuel estates_quantity st = Some r)
    <-> (exists k, estates_quantity
                   <= N.of_nat (length (estates st))
                      + N.of_nat (cards_from browser bs4 base_url (page_number st) k))).
  { split.
    - intros (fuel & r & H). eapply loop_returned; eauto.
    - intros (k & H). exists k.
      destruct (loop_reaches browser bs4 base_url estates_quantity Hok k st H) as [st' Hst'].
      eauto. }
  split; [exact Hiff|].
  intros Hzero Hlt fuel.
  destruct (scrap_loop browser bs4 base_url fuel estates_quantity st) as [r|] eqn:E;
    [|reflexivity].
  destruct (proj1 Hiff (ex_intro _ fuel (ex_intro _ r E))) as [k Hk].
  rewrite Hzero in Hk. lia.
Qed.

Lemma empty_browser_cards p k : cards_from empty_browser AsNone (u "casas") p k = 0%nat.
Proof. revert p. induction k as [|k IH]; intros p; simpl; [reflexivity|]. apply IH. Qed.

Lemma scrap_loop_terminates_iff_witness :
  scrap_loop empty_browser AsNone (u "casas") 1000 45
    {| page_number := 1; estates := []; fetched := [] |} = None.
Proof.
  refine (proj2 (scrap_loop_terminates_iff empty_browser AsNone (u "casas") 45
                   {| page_number := 1; estates := []; fetched := [] |} _) _ _ 1000%nat).
  - intros n. eexists. reflexivity.
  - intros k. apply empty_browser_cards.
  - simpl. lia.
Defined.

(** C10, as stated, fails: the target is positive and the first fetch
    returns no card while nothing is accumulated, yet the loop returns
    after the second fetch. *)
Lemma empty_page_does_not_hang :
  get_estates_quantity gap_browser (u "casas") = Ok 10
  /\ scrap_page gap_browser AsNone (u "casas") 1 = Ok []
  /\ exists st, scrap_website gap_browser AsNone (u "casas") 2 = Some (Ok st)
                /\ fetched st = [1; 2]%nat /\ length (estates st) = 10%nat.
Proof.
  split; [vm_compute; reflexivity|].
  split; [vm_compute; reflexivity|].
  eexists. split; [vm_compute; reflexivity|].
  split; reflexivity.
Qed.

(** C5.  With a target of 45 and twenty cards on every page the loop
    fetches pages 1, 2 and 3 and no other, and returns all sixty cards. *)
Theorem pagination_45_by_20 browser bs4 base_url :
  get_estates_quantity browser base_url = Ok 45 ->
  (forall n, exists new, scrap_page browser bs4 base_url n = Ok new /\ length new = 20%nat) ->
  (forall fuel, (3 <= fuel)%nat ->
     exists c1 c2 c3 st,
       scrap_page browser bs4 base_url 1 = Ok c1
       /\ scrap_page browser bs4 base_url 2 = Ok c2
       /\ scrap_page browser bs4 base_url 3 = Ok c3
       /\ scrap_website browser bs4 base_url fuel = Some (Ok st)
       /\ fetched st = [1; 2; 3]%nat
       /\ estates st = c1 ++ c2 ++ c3
       /\ length (estates st) = 60%nat)
  /\ (forall fuel, (fuel < 3)%nat -> scrap_website browser bs4 base_url fuel = None).
Proof.
  intros Hq Hp.
  destruct (Hp 1%nat) as (c1 & H1 & L1).
  destruct (Hp 2%nat) as (c2 & H2 & L2).
  destruct (Hp 3%nat) as (c3 & H3 & L3).
  split.
  - intros fuel Hfuel.
    exists c1, c2, c3. eexists.
    split; [exact H1|]. split; [exact H2|]. split; [exact H3|].
    unfold scrap_website. rewrite Hq.
    destruct fuel as [|[|[|fuel]]]; try lia.
    rewrite (loop_iterate _ _ _ _ _ _ c1) by (unfold scraped; simpl; first [lia | exact H1]).
    rewrite (loop_iterate _ _ _ _ _ _ c2)
      by (unfold scraped; simpl; rewrite ?length_app, ?L1; first [lia | exact H2]).
    rewrite (loop_iterate _ _ _ _ _ _ c3)
      by (unfold scraped; simpl; rewrite ?length_app, ?L1, ?L2; first [lia | exact H3]).
    rewrite loop_exit
      by (unfold scraped; simpl; rewrite !length_app, L1, L2, L3; lia).
    split; [reflexivity|]. simpl.
    split; [reflexivity|]. split; [rewrite <- app_assoc; reflexivity|].
    rewrite !length_app, L1, L2, L3. reflexivity.
  - intros fuel Hfuel. unfold scrap_website. rewrite Hq.
    destruct fuel as [|[|[|fuel]]]; try lia.
    + apply loop_starved. unfold scraped; simpl; lia.
    + rewrite (loop_iterate _ _ _ _ _ _ c1) by (unfold scraped; simpl; first [lia | exact H1]).
      apply loop_starved. unfold scraped; simpl. rewrite L1. lia.
    + rewrite (loop_iterate _ _ _ _ _ _ c1) by (unfold scraped; simpl; first [lia | exact H1]).
      rewrite (loop_iterate _ _ _ _ _ _ c2)
        by (unfold scraped; simpl; rewrite ?length_app, ?L1; first [lia | exact H2]).
      apply loop_starved. unfold scraped; simpl. rewrite length_app, L1, L2. lia.
Qed.

Lemma pagination_45_by_20_witness :
  exists st, scrap_website twenty_browser AsNone (u "casas") 3 = Some (Ok st)
             /\ fetched st = [1; 2; 3]%nat /\ length (estates st) = 60%nat.
Proof.
  destruct (proj1 (pagination_45_by_20 twenty_browser AsNone (u "casas")
                     ltac:(vm_compute; reflexivity)
                     ltac:(intros n; eexists; split; reflexivity)) 3%nat (le_n 3))
    as (c1 & c2 & c3 & st & _ & _ & _ & Hst & Hf & _ & Hl).
  exists st. auto.
Defined.

End CrawlFacts.

(** ** Card fields *)

Module CardFacts.
Import Scraper.

(** C3.  The feature string of the repository's test yields exactly the
    five suffixed keys, each holding the digits as text. *)
Theorem parse_features_test_string :
  parse_features test_features
  = list_to_map
      [ (u "square_meters_total_0", u "771");
        (u "rooms_0", u "8");
        (u "bedrooms_0", u "4");
        (u "bathrooms_0", u "3");
        (u "parking_0", u "1") ].
Proof. vm_compute. reflexivity. Qed.

(** C6.  [parse_currency_value] always returns a pair: the integer and
    the marker when the body of the [try] succeeds, the text and [None]
    whenever it raises.  On [U$S 150.000] it returns 150000 and the sigil;
    without a numeric token or without a currency marker it returns the
    text and [None]. *)
Theorem parse_currency_value_degrades :
  parse_currency_value (u "U$S 150.000") = (PInt 150000, PStr (u "$"))
  /\ forall text,
       ((exists n t, parse_currency_try text = Ok (n, t)
                     /\ parse_currency_value text = (PInt n, PStr t))
        \/ (exists e, parse_currency_try text = Raise e
                      /\ parse_currency_value text = (PStr text, PNone)))
       /\ (finditer false count_re text = [] \/ finditer false currency_re text = [] ->
           parse_currency_value text = (PStr text, PNone)).
Proof.
  split; [vm_compute; reflexivity|].
  intros text. split.
  - unfold parse_currency_value.
    destruct (parse_currency_try text) as [[n t]|e] eqn:E.
    + left. exists n, t. auto.
    + right. exists e. auto.
  - intros [H|H]; unfold parse_currency_value, parse_currency_try.
    + rewrite H. reflexivity.
    + rewrite H. simpl.
      destruct (first (map m_text (finditer false count_re text))) as [tok|]; [|reflexivity].
      simpl. destruct (int_of_text (replace1 46 [] tok)); reflexivity.
Qed.

Lemma parse_currency_value_degrades_witness :
  parse_currency_value (u "Consultar precio") = (PStr (u "Consultar precio"), PNone).
Proof.
  apply (proj2 (proj2 parse_currency_value_degrades (u "Consultar precio"))).
  left. vm_compute. reflexivity.
Defined.

End CardFacts.

(** ** Detail areas *)

Module AreaFacts.
Import ExcelExport.

Lemma Qred_nonneg n d : (0 <= Qred (Z.of_N n # d))%Q.
Proof. rewrite Qred_correct. unfold Qle; simpl. lia. Qed.

Lemma float_of_decimal_nonneg s q : float_of_decimal s = Some q -> (0 <= q)%Q.
Proof.
  unfold float_of_decimal.
  destruct (drop_digits s) as [|c fp].
  - destruct (take_digits s); [discriminate|].
    intros [= <-]. apply Qred_nonneg.
  - destruct ((c =? 46) && forallb is_digit fp && _); [|discriminate].
    intros [= <-]. apply Qred_nonneg.
Qed.

Lemma clean_number_nonneg raw q : _clean_number raw = Some q -> (0 <= q)%Q.
Proof.
  unfold _clean_number.
  destruct raw as [raw|]; [|discriminate].
  destruct (strip raw); [discriminate|].
  destruct (search false number_re _); [|discriminate].
  apply float_of_decimal_nonneg.
Qed.

Lemma for_nonneg a b q :
  (forall x, a = Some x -> (0 <= x)%Q) -> (forall x, b = Some x -> (0 <= x)%Q) ->
  for_ a b = Some q -> (0 <= q)%Q.
Proof.
  intros Ha Hb. unfold for_.
  destruct a as [x|]; [destruct (nonzero x)|]; eauto.
Qed.

Lemma out0_nonneg : areas_nonneg out0.
Proof. intros [] q; discriminate. Qed.

Lemma aset_nonneg out key v :
  areas_nonneg out -> (forall x, v = Some x -> (0 <= x)%Q) -> areas_nonneg (aset out key v).
Proof.
  intros Ho Hv k q.
  destruct key, k; simpl; intros H; first [apply Hv; exact H | eapply (Ho K_total); exact H
    | eapply (Ho K_covered); exact H | eapply (Ho K_land); exact H].
Qed.

Lemma aset_clean_nonneg out key raw :
  areas_nonneg out -> areas_nonneg (aset out key (_clean_number raw)).
Proof. intros Ho. apply aset_nonneg; [exact Ho|]. intros x. apply clean_number_nonneg. Qed.

Lemma aset_for_nonneg out key val :
  areas_nonneg out -> (0 <= val)%Q ->
  areas_nonneg (aset out key (for_ (aget out key) (Some val))).
Proof.
  intros Ho Hv. apply aset_nonneg; [exact Ho|].
  intros x. apply for_nonneg.
  - intros y. apply Ho.
  - intros y [= <-]. exact Hv.
Qed.

Lemma icon_loop_cons li rest out :
  icon_loop (li :: rest) out
  = match li_icon li with
    | None => icon_loop rest out
    | Some classes =>
        match _clean_number (Some (li_text li)) with
        | None => icon_loop rest out
        | Some val =>
            if all_filled (icon_update classes val out) then icon_update classes val out
            else icon_loop rest (icon_update classes val out)
        end
    end.
Proof. reflexivity. Qed.

Lemma icon_update_nonneg classes val out :
  areas_nonneg out -> (0 <= val)%Q -> areas_nonneg (icon_update classes val out).
Proof.
  intros Ho Hv. unfold icon_update. repeat case_bool_decide; try exact Ho.
  - apply (aset_for_nonneg out K_covered); assumption.
  - apply (aset_for_nonneg out K_total); assumption.
  - apply (aset_for_nonneg out K_land); assumption.
Qed.

Lemma icon_loop_nonneg lis : forall out, areas_nonneg out -> areas_nonneg (icon_loop lis out).
Proof.
  induction lis as [|li rest IH]; intros out Ho; [exact Ho|].
  rewrite icon_loop_cons.
  destruct (li_icon li) as [classes|]; [|auto].
  destruct (_clean_number (Some (li_text li))) as [val|] eqn:E; [|auto].
  apply clean_number_nonneg in E.
  pose proof (icon_update_nonneg classes val out Ho E) as Hn.
  destruct (all_filled _); auto.
Qed.

Lemma label_step_nonneg txt low out e :
  areas_nonneg out -> areas_nonneg (label_step txt low out e).
Proof.
  intros Ho. destruct e as [lbl key]. unfold label_step.
  destruct (aget out key); [exact Ho|].
  destruct (contains lbl low); [|exact Ho].
  destruct (search true area_re txt); [|exact Ho].
  apply aset_clean_nonneg. exact Ho.
Qed.

Lemma fold_left_preserves {A B} (P : A -> Prop) (f : A -> B -> A) (l : list B) :
  (forall a b, P a -> P (f a b)) -> forall a, P a -> P (fold_left f l a).
Proof. intros Hf. induction l; simpl; auto. Qed.

Lemma label_loop_cons txt rest out :
  label_loop (txt :: rest) out
  = match txt with
    | [] => label_loop rest out
    | _ =>
        if all_filled (fold_left (label_step txt (lower txt)) label_map out)
        then fold_left (label_step txt (lower txt)) label_map out
        else label_loop rest (fold_left (label_step txt (lower txt)) label_map out)
    end.
Proof. reflexivity. Qed.

Lemma label_loop_nonneg candidates :
  forall out, areas_nonneg out -> areas_nonneg (label_loop candidates out).
Proof.
  induction candidates as [|txt rest IH]; intros out Ho; [exact Ho|].
  rewrite label_loop_cons.
  destruct txt as [|c txt]; [auto|].
  assert (Hn : areas_nonneg
                 (fold_left (label_step (c :: txt) (lower (c :: txt))) label_map out)).
  { apply fold_left_preserves; [|exact Ho]. intros a b. apply label_step_nonneg. }
  destruct (all_filled _); auto.
Qed.

Section JsonLdFacts.
Variable str_other : json -> pystr.

Lemma key_step_nonneg d out e :
  areas_nonneg out -> areas_nonneg (key_step str_other d out e).
Proof.
  intros Ho. destruct e as [key target]. unfold key_step.
  destruct (jlookup key d) as [v|]; [|exact Ho].
  destruct (aget out target); [exact Ho|].
  destruct v; try exact Ho; apply aset_clean_nonneg; exact Ho.
Qed.

Lemma property_step_nonneg out item :
  areas_nonneg out -> areas_nonneg (property_step str_other out item).
Proof.
  intros Ho. destruct item; try exact Ho. unfold property_step.
  repeat match goal with
  | |- areas_nonneg (match m2_land ?o with _ => _ end) =>
      let H := fresh "H" in
      assert (H : areas_nonneg o);
      [| destruct (m2_land o); [exact H|];
         match goal with |- areas_nonneg (if ?b then _ else _) => destruct b end;
         [apply aset_clean_nonneg|]; exact H ]
  | |- areas_nonneg (match m2_covered ?o with _ => _ end) =>
      let H := fresh "H" in
      assert (H : areas_nonneg o);
      [| destruct (m2_covered o); [exact H|];
         match goal with |- areas_nonneg (if ?b then _ else _) => destruct b end;
         [apply aset_clean_nonneg|]; exact H ]
  | |- areas_nonneg (match m2_total ?o with _ => _ end) =>
      destruct (m2_total o); [exact Ho|];
      match goal with |- areas_nonneg (if ?b then _ else _) => destruct b end;
      [apply aset_clean_nonneg|]; exact Ho
  end.
Qed.

Lemma dict_step_nonneg out d :
  areas_nonneg out -> areas_nonneg (dict_step str_other out d).
Proof.
  intros Ho. unfold dict_step.
  assert (Hk : areas_nonneg (fold_left (key_step str_other d) known_keys out)).
  { apply fold_left_preserves; [|exact Ho]. intros a b. apply key_step_nonneg. }
  destruct (jget d (u "additionalProperty")); try exact Hk.
  apply fold_left_preserves; [|exact Hk]. intros a b. apply property_step_nonneg.
Qed.

Lemma jsonld_nonneg blocks :
  areas_nonneg (_parse_detail_areas_from_jsonld str_other blocks).
Proof.
  unfold _parse_detail_areas_from_jsonld.
  apply fold_left_preserves; [|apply out0_nonneg].
  intros a b. apply dict_step_nonneg.
Qed.
End JsonLdFacts.

Lemma aget_resolve str_other page key :
  aget (resolve_areas str_other page) key
  = for_ (for_ (aget (_parse_detail_areas_from_icon_features (pg_icon_features page)) key)
               (aget (_parse_detail_areas_from_html (pg_candidates page)) key))
         (aget (_parse_detail_areas_from_jsonld str_other (pg_jsonld page)) key).
Proof. destruct key; reflexivity. Qed.

(** C9, as amended.  Every field of the record of each of the three
    extractors, and of the merged record, is [None] or a number that is
    at least zero. *)
Theorem area_fields_never_negative str_other page key q :
  (aget (_parse_detail_areas_from_icon_features (pg_icon_features page)) key = Some q
   -> (0 <= q)%Q)
  /\ (aget (_parse_detail_areas_from_html (pg_candidates page)) key = Some q
      -> (0 <= q)%Q)
  /\ (aget (_parse_detail_areas_from_jsonld str_other (pg_jsonld page)) key = Some q
      -> (0 <= q)%Q)
  /\ (aget (resolve_areas str_other page) key = Some q -> (0 <= q)%Q).
Proof.
  assert (Hi : areas_nonneg (_parse_detail_areas_from_icon_features (pg_icon_features page)))
    by (apply icon_loop_nonneg, out0_nonneg).
  assert (Hl : areas_nonneg (_parse_detail_areas_from_html (pg_candidates page)))
    by (apply label_loop_nonneg, out0_nonneg).
  pose proof (jsonld_nonneg str_other (pg_jsonld page)) as Hj.
  repeat split; try (apply Hi || apply Hl || apply Hj).
  rewrite aget_resolve. apply for_nonneg; [|apply Hj].
  intros x. apply for_nonneg; [apply Hi|apply Hl].
Qed.

Lemma area_fields_never_negative_witness : (0 <= 100)%Q.
Proof.
  apply (proj2 (proj2 (proj2
           (area_fields_never_negative no_str zero_floor_page K_total 100%Q)))).
  vm_compute. reflexivity.
Defined.

(** C9, as stated, fails: the icon extractor stores the zero of a plot
    with nothing built on it. *)
Lemma icon_extractor_stores_zero :
  m2_covered (_parse_detail_areas_from_icon_features (pg_icon_features plot_page))
  = Some 0%Q
  /\ ~ (0 < 0)%Q.
Proof. split; [vm_compute; reflexivity|]. apply Qlt_irrefl. Qed.

(** C1, as amended.  For each area field the merged value is the value
    of the first extractor, in the order icons, labeled text, structured
    metadata, that is neither [None] nor zero, and the value of the
    structured metadata when the first two are [None] or zero.  So it is
    the first value that is not [None] whenever neither the icon value nor
    the labeled-text value is zero; an icon value of 100 wins over a
    labeled-text value of 200. *)
Theorem resolve_areas_priority str_other page key :
  let icons := aget (_parse_detail_areas_from_icon_features (pg_icon_features page)) key in
  let labels := aget (_parse_detail_areas_from_html (pg_candidates page)) key in
  let jsonld := aget (_parse_detail_areas_from_jsonld str_other (pg_jsonld page)) key in
  let merged := aget (resolve_areas str_other page) key in
  merged = first_non_null (skip_zero icons) (skip_zero labels) jsonld
  /\ (skip_zero icons = icons -> skip_zero labels = labels ->
      merged = first_non_null icons labels jsonld)
  /\ (icons = Some 100%Q -> labels = Some 200%Q -> merged = Some 100%Q).
Proof.
  cbv zeta. rewrite aget_resolve.
  set (i := aget _ key). set (l := aget (_parse_detail_areas_from_html _) key).
  set (j := aget (_parse_detail_areas_from_jsonld _ _) key).
  assert (E : for_ (for_ i l) j = first_non_null (skip_zero i) (skip_zero l) j).
  { unfold for_, first_non_null, skip_zero.
    destruct i as [x|]; [destruct (nonzero x) eqn:Ex|];
      (destruct l as [y|]; [destruct (nonzero y) eqn:Ey|]);
      rewrite ?Ex, ?Ey; reflexivity. }
  split; [exact E|]. split.
  - intros Hi Hl. rewrite E, Hi, Hl. reflexivity.
  - intros -> ->. reflexivity.
Qed.

Lemma resolve_areas_priority_witness :
  m2_covered (resolve_areas no_str flat_page)
  = first_non_null
      (m2_covered (_parse_detail_areas_from_icon_features (pg_icon_features flat_page)))
      (m2_covered (_parse_detail_areas_from_html (pg_candidates flat_page)))
      (m2_covered (_parse_detail_areas_from_jsonld no_str (pg_jsonld flat_page))).
Proof.
  apply (proj1 (proj2 (resolve_areas_priority no_str flat_page K_covered)));
    vm_compute; reflexivity.
Defined.

(** C1, as stated, fails: on the page of the plot the icon value of the
    covered area is zero, which is not [None], the labeled-text value is
    200, and the merged value is 200. *)
Lemma merge_passes_over_zero :
  let icons := m2_covered (_parse_detail_areas_from_icon_features (pg_icon_features plot_page)) in
  let labels := m2_covered (_parse_detail_areas_from_html (pg_candidates plot_page)) in
  let jsonld := m2_covered (_parse_detail_areas_from_jsonld no_str (pg_jsonld plot_page)) in
  icons = Some 0%Q
  /\ labels = Some 200%Q
  /\ first_non_null icons labels jsonld = Some 0%Q
  /\ m2_covered (resolve_areas no_str plot_page) = Some 200%Q
  /\ m2_covered (resolve_areas no_str plot_page) <> first_non_null icons labels jsonld.
Proof.
  cbv zeta. repeat split; try (vm_compute; reflexivity).
  vm_compute. discriminate.
Qed.

End AreaFacts.

(** ** Export rows *)

Module ExportFacts.
Import Scraper ExcelExport.

Lemma pos_num_Qlt d : (0 <? Qnum d)%Z = true <-> (0 < d)%Q.
Proof. unfold Qlt; simpl. rewrite Z.ltb_lt. lia. Qed.

Lemma for_denominator a b : for_ a b = denominator a b.
Proof.
  unfold for_, denominator, skip_zero.
  destruct a as [q|]; [destruct (nonzero q)|]; reflexivity.
Qed.

Lemma precio_of_row float_str card d :
  precio_por_m2 (merge_row float_str card d)
  = price_per_m2
      (price_num float_str (price_value (merge_row float_str card d)))
      (denominator (row_m2_covered (merge_row float_str card d))
                   (row_m2_total (merge_row float_str card d))).
Proof. simpl. rewrite for_denominator. reflexivity. Qed.

(** C4, as amended.  The denominator is [m2_covered] unless that is
    absent or zero, and [m2_total] otherwise.  [precio_por_m2] is the
    price divided by it exactly when the price is present and converts to
    a number and the denominator is present and positive, and is [None]
    otherwise.  A price of 100000 with a covered area of 50 gives 2000; a
    covered area of zero with no total area gives [None]. *)
Theorem precio_por_m2_rule float_str card d :
  let row := merge_row float_str card d in
  let price := price_num float_str (price_value row) in
  let denom := denominator (row_m2_covered row) (row_m2_total row) in
  (forall p dn, price = Some p -> denom = Some dn -> (0 < dn)%Q ->
     precio_por_m2 row = Some (Qred (p / dn)))
  /\ (forall x, precio_por_m2 row = Some x ->
        exists p dn, price = Some p /\ denom = Some dn /\ (0 < dn)%Q /\ x = Qred (p / dn))
  /\ (price = Some 100000%Q -> row_m2_covered row = Some 50%Q ->
      precio_por_m2 row = Some 2000%Q)
  /\ (row_m2_covered row = Some 0%Q -> row_m2_total row = None ->
      precio_por_m2 row = None).
Proof.
  cbv zeta. rewrite precio_of_row.
  set (row := merge_row float_str card d).
  set (price := price_num float_str (price_value row)).
  repeat split.
  - intros p dn -> -> H. unfold price_per_m2.
    apply pos_num_Qlt in H. rewrite H. reflexivity.
  - intros x. unfold price_per_m2.
    destruct price as [p|]; [|discriminate].
    destruct (denominator _ _) as [dn|]; [|discriminate].
    destruct (0 <? Qnum dn)%Z eqn:E; [|discriminate].
    intros [= <-]. exists p, dn. rewrite <- pos_num_Qlt. auto.
  - intros -> ->. reflexivity.
  - intros -> ->. unfold price_per_m2. destruct price; reflexivity.
Qed.

Lemma precio_por_m2_rule_witness :
  precio_por_m2
    (merge_row no_float (<[u "price_value" := PInt 100000]> ∅) flat_detail)
  = Some 2000%Q.
Proof.
  apply (proj1 (proj2 (proj2
           (precio_por_m2_rule no_float (<[u "price_value" := PInt 100000]> ∅) flat_detail))));
    vm_compute; reflexivity.
Defined.

(** C4, as stated, fails: with a covered area of zero and a total area
    of 100 the row gets a price per square metre, where the rule of the
    specification gives none. *)
Lemma zero_covered_area_still_priced :
  exists row,
    export_posts AsNone (fun _ => Ok zero_floor_page) [priced_post] = Ok [row]
    /\ price_value row = PInt 100000
    /\ row_m2_covered row = Some 0%Q
    /\ row_m2_total row = Some 100%Q
    /\ precio_por_m2 row = Some 1000%Q
    /\ spec_precio_por_m2 (Some 100000%Q) (row_m2_covered row) (row_m2_total row) = None.
Proof.
  eexists. split; [vm_compute; reflexivity|].
  repeat split.
Qed.

Section Rows.
Variable str_other : json -> pystr.
Variable normalize_str : pystr -> exc pystr.
Variable browser : pystr -> exc detail_page.
Variable float_str : pystr -> option Q.

Abbreviation rows := (rows_of str_other normalize_str browser float_str).

Lemma detail_of_total link l :
  normalize_str link = Ok l ->
  exists d, detail_of str_other normalize_str browser link = Ok d.
Proof.
  intros H. unfold detail_of, parse_listing_detail. rewrite H. simpl.
  destruct (browser l); simpl; eauto.
Qed.


Lemma rows_of_linked card rest :
  truthy (por (dget card (u "link")) (dget card (u "url"))) = true ->
  rows (card :: rest)
  = (detail ← detail_of str_other normalize_str browser
                (default [] (str_pyval (por (dget card (u "link")) (dget card (u "url")))));
     _ ← price_value_num float_str (dget card (u "price_value"));
     rows ← rows rest;
     mret (merge_row float_str card detail :: rows)).
Proof. intros H. simpl. rewrite H. reflexivity. Qed.


Lemma float_of_int_range z :
  (Z.abs z < 2 ^ 1024 - 2 ^ 970)%Z -> float_of_int z = Ok (z # 1).
Proof. intros H. unfold float_of_int. apply Z.ltb_lt in H. rewrite H. reflexivity. Qed.

Lemma float_of_int_overflow z :
  (2 ^ 1024 - 2 ^ 970 <= Z.abs z)%Z -> float_of_int z = Raise OverflowError.
Proof. intros H. unfold float_of_int. apply Z.ltb_ge in H. rewrite H. reflexivity. Qed.
End Rows.




Lemma mapM_raise {A B} (f : A -> exc B) before x after e :
  f x = Raise e -> exists e', mapM f (before ++ x :: after) = Raise e'.
Proof.
  intros Hx. induction before as [|y before [e' IH]]; simpl.
  - rewrite Hx. simpl. eauto.
  - destruct (f y); simpl; [|eauto]. rewrite IH. simpl. eauto.
Qed.

(** C8: the code at the failing input.  A listing block without its
    [data-to-posting] attribute aborts the run, whatever the other blocks
    are.  Where the missing attribute reads as [None], the card gets the
    URL [None] and the export raises on it before the first row; where it
    reads as the empty list, [parse_estate] raises inside [scrap_page],
    which has no handler, nor has the loop around it. *)
Theorem urlless_card_aborts_run :
  (exists card,
     parse_estate AsNone urlless_post = Ok card
     /\ card !! u "url" = Some PNone
     /\ forall str_other normalize_str browser float_str before after max_listings,
          exists e,
            export_rows str_other normalize_str browser float_str
              (before ++ card :: after) max_listings = Raise e)
  /\ (forall before after,
        exists e, mapM (parse_estate AsEmptyList) (before ++ urlless_post :: after) = Raise e).
Proof.
  split.
  - eexists. split; [vm_compute; reflexivity|]. split; [vm_compute; reflexivity|].
    intros str_other normalize_str browser float_str before after max_listings.
    unfold export_rows.
    destruct (mapM_raise (add_link normalize_str) before
                (fold_left estate_field (data_qa urlless_post) (<[u "url" := PNone]> ∅))
                after TypeError) as [e He].
    { vm_compute. reflexivity. }
    exists e.
    change (mapM (add_link normalize_str) (before ++ ?c :: after))
      with (mapM (add_link normalize_str)
              (before ++ fold_left estate_field (data_qa urlless_post)
                           (<[u "url" := PNone]> ∅) :: after)).
    rewrite He. reflexivity.
  - intros before after. apply (mapM_raise _ _ _ _ IndexError). reflexivity.
Qed.

End ExportFacts.

(** ** The matcher against the declarative reading *)

Module ReFacts.

Section Soundness.
Context {A : Type}.
Variable ic : bool.

Lemma star_loop_sound r
    (body : pystr -> caps -> (pystr -> caps -> option A) -> option A) :
  sound_for ic r body ->
  forall k n s c a, star_loop body k n s c = Some a ->
    exists w s' c', s = w ++ s' /\ mat ic (Star r) w c c' /\ k s' c' = Some a.
Proof.
  intros Hbody k n. induction n as [|n IH]; intros s c a H; simpl in H.
  - exists [], s, c. split; [reflexivity|]. split; [constructor|exact H].
  - destruct (body s c _) as [a'|] eqn:E.
    + injection H as ->.
      apply Hbody in E as (w1 & s1 & c1 & -> & Hm & Hk).
      destruct (length s1 <? length (w1 ++ s1))%nat; [|discriminate].
      apply IH in Hk as (w2 & s2 & c2 & -> & Hm2 & Hk2).
      exists (w1 ++ w2), s2, c2. rewrite <- app_assoc.
      split; [reflexivity|]. split; [|exact Hk2].
      econstructor; eassumption.
    + exists [], s, c. split; [reflexivity|]. split; [constructor|exact H].
Qed.

Lemma mt_sound r : sound_for ic r (mt (A:=A) ic r).
Proof.
  induction r as [| p | cl | r1 IH1 r2 IH2 | r1 IH1 r2 IH2 | r1 IH1 | n r1 IH1];
    intros s c k a H; simpl in H.
  - exists [], s, c. split; [reflexivity|]. split; [constructor|exact H].
  - destruct s as [|x s]; [discriminate|].
    destruct (lit_match ic p x) eqn:E; [|discriminate].
    exists [x], s, c. split; [reflexivity|]. split; [constructor; exact E|exact H].
  - destruct s as [|x s]; [discriminate|].
    destruct (cls_match cl x) eqn:E; [|discriminate].
    exists [x], s, c. split; [reflexivity|]. split; [constructor; exact E|exact H].
  - apply IH1 in H as (w1 & s1 & c1 & -> & Hm1 & H).
    apply IH2 in H as (w2 & s2 & c2 & -> & Hm2 & H).
    exists (w1 ++ w2), s2, c2. rewrite <- app_assoc.
    split; [reflexivity|]. split; [econstructor; eassumption|exact H].
  - destruct (mt ic r1 s c k) as [a'|] eqn:E.
    + injection H as ->.
      apply IH1 in E as (w & s' & c' & -> & Hm & Hk).
      exists w, s', c'. split; [reflexivity|]. split; [apply mat_alt_l; exact Hm|exact Hk].
    + apply IH2 in H as (w & s' & c' & -> & Hm & Hk).
      exists w, s', c'. split; [reflexivity|]. split; [apply mat_alt_r; exact Hm|exact Hk].
  - eapply star_loop_sound; eassumption.
  - apply IH1 in H as (w & s' & c' & -> & Hm & Hk).
    rewrite length_app, Nat.add_sub, take_app_length in Hk.
    exists w, s', ((n, w) :: c'). split; [reflexivity|].
    split; [constructor; exact Hm|exact Hk].
Qed.
End Soundness.

Lemma match_at_sound ic r s m :
  match_at ic r s = Some m ->
  exists w, s = w ++ m_rest m /\ m_text m = w /\ mat ic r w [] (m_caps m).
Proof.
  unfold match_at. intros H.
  apply mt_sound in H as (w & s' & c' & -> & Hm & [= <-]). simpl.
  exists w. rewrite length_app, Nat.add_sub, take_app_length. auto.
Qed.

Lemma finditer_go_sound ic r fuel : forall s,
  Forall (fun m => exists s', match_at ic r s' = Some m /\ exists pre, s = pre ++ s')
         (finditer_go fuel ic r s).
Proof.
  induction fuel as [|fuel IH]; intros s; simpl; [constructor|].
  assert (Htail : Forall (fun m => exists s', match_at ic r s' = Some m
                                              /\ exists pre, s = pre ++ s')
                    match s with [] => [] | _ :: s' => finditer_go fuel ic r s' end).
  { destruct s as [|x s]; [constructor|].
    eapply Forall_impl; [apply IH|]. simpl.
    intros m (s' & Hm & pre & ->). exists s'. split; [exact Hm|]. exists (x :: pre). reflexivity. }
  destruct (match_at ic r s) as [m|] eqn:E; [|exact Htail].
  constructor.
  - exists s. split; [exact E|]. exists []. reflexivity.
  - destruct (length (m_rest m) <? length s)%nat; [|exact Htail].
    apply match_at_sound in E as (w & Hs & _ & _).
    eapply Forall_impl; [apply IH|]. simpl.
    intros m' (s' & Hm & pre & Hpre). exists s'. split; [exact Hm|].
    exists (w ++ pre). rewrite Hs, Hpre, app_assoc. reflexivity.
Qed.

Lemma mat_groupless ic r w c c' : mat ic r w c c' -> groupless r = true -> c' = c.
Proof.
  induction 1; simpl; intros Hg; try reflexivity;
    try (apply andb_true_iff in Hg as [Hg1 Hg2]); try discriminate.
  - rewrite IHmat2, IHmat1; auto.
  - auto.
  - auto.
  - rewrite IHmat2, IHmat1; auto.
Qed.

(** A match of a pattern of literals spells one of its strings, letter
    by letter under [lit_match]. *)
Lemma mat_spelling ic r w c c' :
  mat ic r w c c' -> literal_only r = true ->
  exists pat, pat ∈ spellings r /\ Forall2 (fun x p => lit_match ic p x = true) w pat.
Proof.
  induction 1; simpl; intros Hl; try discriminate;
    try (apply andb_true_iff in Hl as [Hl1 Hl2]).
  - exists []. split; [apply list_elem_of_singleton; reflexivity|constructor].
  - exists [p]. split; [apply list_elem_of_singleton; reflexivity|].
    constructor; [assumption|constructor].
  - destruct (IHmat1 Hl1) as (p1 & Hp1 & F1). destruct (IHmat2 Hl2) as (p2 & Hp2 & F2).
    exists (p1 ++ p2). split; [|apply Forall2_app; assumption].
    apply list_elem_of_bind. exists p1. split; [|exact Hp1].
    apply list_elem_of_bind. exists p2. split; [|exact Hp2].
    apply list_elem_of_singleton. reflexivity.
  - destruct (IHmat Hl1) as (p1 & Hp1 & F1). exists p1. split; [|exact F1].
    apply elem_of_app. left. exact Hp1.
  - destruct (IHmat Hl2) as (p1 & Hp1 & F1). exists p1. split; [|exact F1].
    apply elem_of_app. right. exact Hp1.
Qed.

(** *** Letters under IGNORECASE *)

Lemma tolower_long_s x : tolower x = 383 -> x = 383.
Proof.
  unfold tolower.
  repeat match goal with |- context [if ?b then _ else _] => destruct b eqn:? end;
    repeat match goal with
    | H : _ && _ = true |- _ => apply andb_true_iff in H as [? ?]
    | H : (_ <=? _) = true |- _ => apply N.leb_le in H
    end; lia.
Qed.

Lemma tolower_space x : is_space x = true -> tolower x = x.
Proof.
  unfold is_space, tolower. intros H.
  repeat match goal with |- context [if ?b then _ else _] => destruct b eqn:? end;
    try reflexivity; exfalso;
    repeat match goal with
    | H : _ && _ = true |- _ => apply andb_true_iff in H as [? ?]
    | H : negb _ = true |- _ => apply negb_true_iff in H
    | H : (_ <=? _) = true |- _ => apply N.leb_le in H
    | H : (_ =? _) = true |- _ => apply N.eqb_eq in H
    | H : (_ =? _) = false |- _ => apply N.eqb_neq in H
    end; subst;
    try discriminate;
    repeat match goal with
    | H : _ || _ = true |- _ => apply orb_true_iff in H as [H|H]
    | H : _ && _ = true |- _ => apply andb_true_iff in H as [? ?]
    | H : (_ <=? _) = true |- _ => apply N.leb_le in H
    | H : (_ =? _) = true |- _ => apply N.eqb_eq in H
    end; lia.
Qed.

Lemma lit_match_plain p x :
  plain p = true -> lit_match true p x = true -> x <> 383 ->
  tolower x = p /\ x <> 304 /\ is_space x = false.
Proof.
  unfold plain, lit_match. intros Hp Hm Hx.
  repeat match goal with
  | H : _ && _ = true |- _ => apply andb_true_iff in H as [? ?]
  | H : negb _ = true |- _ => apply negb_true_iff in H
  | H : (_ =? _) = true |- _ => apply N.eqb_eq in H
  | H : (_ =? _) = false |- _ => apply N.eqb_neq in H
  end.
  assert (Hl : tolower x = p).
  { replace (tolower p) with p in Hm by congruence.
    apply bool_decide_eq_true in Hm. unfold case_class in Hm.
    destruct (p =? 115) eqn:E1; [|destruct (p =? 105) eqn:E2].
    - apply N.eqb_eq in E1. subst p.
      apply elem_of_cons in Hm as [Hm|Hm]; [exact Hm|].
      apply list_elem_of_singleton in Hm. apply tolower_long_s in Hm. contradiction.
    - apply N.eqb_eq in E2. contradiction.
    - apply list_elem_of_singleton in Hm. exact Hm. }
  split; [exact Hl|]. split.
  - intros ->. vm_compute in Hl.
    match goal with H : p <> 105 |- _ => apply H; symmetry; exact Hl end.
  - destruct (is_space x) eqn:Es; [|reflexivity].
    pose proof (tolower_space x Es) as Ht. rewrite Hl in Ht. subst x. congruence.
Qed.

Lemma spelled_plain w pat :
  Forall2 (fun x p => lit_match true p x = true) w pat ->
  forallb plain pat = true -> 383 ∉ w ->
  lower w = pat /\ Forall (fun x => is_space x = false) w.
Proof.
  induction 1 as [|x p w pat Hxp _ IH]; simpl; intros Hp Hw.
  - split; [reflexivity|constructor].
  - apply andb_true_iff in Hp as [Hp Hps].
    apply not_elem_of_cons in Hw as [Hx Hw].
    destruct (lit_match_plain p x Hp Hxp (not_eq_sym Hx)) as (Hl & H304 & Hs).
    destruct (IH Hps Hw) as [IHl IHs].
    split; [|constructor; assumption].
    unfold lower in *. simpl. apply N.eqb_neq in H304. rewrite H304. simpl.
    rewrite IHl, Hl. reflexivity.
Qed.

Lemma lit_match_long_s p :
  plain p = true -> lit_match true p 383 = true -> p = 115.
Proof.
  unfold plain, lit_match. intros Hp Hm.
  repeat match goal with
  | H : _ && _ = true |- _ => apply andb_true_iff in H as [? ?]
  | H : negb _ = true |- _ => apply negb_true_iff in H
  | H : (_ =? _) = true |- _ => apply N.eqb_eq in H
  | H : (_ =? _) = false |- _ => apply N.eqb_neq in H
  end.
  replace (tolower p) with p in Hm by congruence.
  apply bool_decide_eq_true in Hm.
  replace (tolower 383) with 383 in Hm by (vm_compute; reflexivity).
  unfold case_class in Hm.
  destruct (p =? 115) eqn:E1; [apply N.eqb_eq in E1; exact E1|].
  destruct (p =? 105) eqn:E2.
  - apply N.eqb_eq in E2. contradiction.
  - apply list_elem_of_singleton in Hm. congruence.
Qed.

(** The lower case of a text that spells a pattern string of plain
    letters: the pattern string, up to the long s in the place of an
    [s]. *)
Lemma spelled_lower w pat :
  Forall2 (fun x p => lit_match true p x = true) w pat ->
  forallb plain pat = true ->
  lower w ∈ long_s_variants pat
  /\ Forall (fun x => is_space x = false) w
  /\ (383 ∈ w <-> 383 ∈ lower w).
Proof.
  induction 1 as [|x p w pat Hxp _ IH]; intros Hp.
  - split; [apply list_elem_of_singleton; reflexivity|]. split; [constructor|reflexivity].
  - simpl in Hp. apply andb_true_iff in Hp as [Hp Hps].
    destruct (IH Hps) as (IHv & IHs & IHi).
    cbn [long_s_variants].
    assert (Hp383 : p <> 383).
    { unfold plain in Hp.
      repeat match goal with
      | H : _ && _ = true |- _ => apply andb_true_iff in H as [? ?]
      | H : negb _ = true |- _ => apply negb_true_iff in H
      | H : (_ =? _) = false |- _ => apply N.eqb_neq in H
      end. assumption. }
    destruct (decide (x = 383)) as [->|Hx].
    + pose proof (lit_match_long_s p Hp Hxp) as ->.
      change (lower (383 :: w)) with (383 :: lower w).
      split; [|split].
      * apply list_elem_of_bind. exists (lower w). split; [|exact IHv].
        simpl. apply list_elem_of_further, list_elem_of_here.
      * constructor; [vm_compute; reflexivity|exact IHs].
      * split; intros _; apply list_elem_of_here.
    + destruct (lit_match_plain p x Hp Hxp Hx) as (Hl & H304 & Hs).
      assert (El : lower (x :: w) = p :: lower w).
      { unfold lower. simpl. apply N.eqb_neq in H304. rewrite H304, Hl. reflexivity. }
      rewrite El. split; [|split].
      * apply list_elem_of_bind. exists (lower w). split; [|exact IHv].
        destruct (p =? 115); apply list_elem_of_here.
      * constructor; assumption.
      * rewrite !elem_of_cons, IHi. split; intros [E|E]; try congruence; right; exact E.
Qed.

Lemma lstrip_id w : Forall (fun x => is_space x = false) w -> lstrip w = w.
Proof. destruct 1 as [|x w Hx _]; simpl; [reflexivity|]. rewrite Hx. reflexivity. Qed.

Lemma strip_id w : Forall (fun x => is_space x = false) w -> strip w = w.
Proof.
  intros H. unfold strip, rstrip. rewrite (lstrip_id w H).
  rewrite lstrip_id by (apply Forall_rev; exact H). apply rev_involutive.
Qed.

End ReFacts.

(** ** Feature tokens *)

Module FeatureFacts.
Import Scraper ReFacts.

(** *** The unit of a token *)

Lemma unit_spellings_plain pat :
  pat ∈ spellings unit_re -> forallb plain pat = true.
Proof.
  intros H.
  assert (Hall : Forall (fun pat => forallb plain pat = true) (spellings unit_re)).
  { vm_compute spellings. repeat (constructor; [vm_compute; reflexivity|]). constructor. }
  rewrite Forall_forall in Hall. apply Hall. exact H.
Qed.

(** What [normalize_unit] does with the lower-case forms of the texts
    the unit pattern matches: a form without the long s becomes one of
    the canonical units, and the one with it, [bañoſ], stays as it is. *)
Lemma unit_variant_class v :
  v ∈ (pat ← spellings unit_re; long_s_variants pat) ->
  let raw := rstrip_chars (u ".") v in
  let unit :=
    if bool_decide (raw ∈ [u "m²"; u "m2"]) then u "m²"
    else if bool_decide (raw ∈ [u "amb"; u "ambs"]) then u "amb"
    else if bool_decide (raw ∈ [u "dorm"; u "dorms"]) then u "dorm"
    else if bool_decide (raw ∈ [u "baño"; u "baños"]) then u "baños"
    else if bool_decide (raw ∈ [u "coch"; u "cocheras"]) then u "coch"
    else raw in
  ((383 ∉ v) /\ unit ∈ canonical_units) \/ (383 ∈ v /\ unit = u "bañoſ").
Proof.
  intros H.
  assert (Hall : Forall (fun v =>
            let raw := rstrip_chars (u ".") v in
            let unit :=
              if bool_decide (raw ∈ [u "m²"; u "m2"]) then u "m²"
              else if bool_decide (raw ∈ [u "amb"; u "ambs"]) then u "amb"
              else if bool_decide (raw ∈ [u "dorm"; u "dorms"]) then u "dorm"
              else if bool_decide (raw ∈ [u "baño"; u "baños"]) then u "baños"
              else if bool_decide (raw ∈ [u "coch"; u "cocheras"]) then u "coch"
              else raw in
            ((383 ∉ v) /\ unit ∈ canonical_units) \/ (383 ∈ v /\ unit = u "bañoſ"))
          (pat ← spellings unit_re; long_s_variants pat)).
  { vm_compute mbind.
    repeat (constructor;
      [first
        [ left; split;
            [apply (bool_decide_unpack _); vm_compute; exact I
            |vm_compute; repeat first [apply list_elem_of_here | apply list_elem_of_further]]
        | right; split;
            [vm_compute; repeat first [apply list_elem_of_here | apply list_elem_of_further]
            |vm_compute; reflexivity] ]|]).
    constructor. }
  rewrite Forall_forall in Hall. apply Hall. exact H.
Qed.

Lemma normalize_unit_class w pat :
  pat ∈ spellings unit_re ->
  Forall2 (fun x p => lit_match true p x = true) w pat ->
  ((383 ∉ w) /\ normalize_unit w ∈ canonical_units)
  \/ (383 ∈ w /\ normalize_unit w = u "bañoſ").
Proof.
  intros Hpat Hw.
  destruct (spelled_lower w pat Hw (unit_spellings_plain pat Hpat)) as (Hv & Hspace & Hiff).
  unfold normalize_unit. rewrite (strip_id w Hspace), Hiff.
  apply unit_variant_class. apply list_elem_of_bind. exists pat. auto.
Qed.

Lemma area_kind_cases q :
  area_kind q = None
  \/ area_kind q = Some (u "square_meters_total")
  \/ area_kind q = Some (u "square_meters_covered")
  \/ area_kind q = Some (u "square_meters_land").
Proof.
  unfold area_kind. destruct q; [auto|].
  repeat match goal with |- context [if ?b then _ else _] => destruct b end; auto.
Qed.

Lemma base_key_counted raw_unit raw_qual :
  normalize_unit raw_unit ∈ canonical_units ->
  base_key_of raw_unit raw_qual ∈ counted_fields.
Proof.
  unfold base_key_of. intros H.
  unfold canonical_units in H.
  repeat (apply elem_of_cons in H as [H|H]); try (apply elem_of_nil in H; contradiction);
    rewrite H.
  - destruct (area_kind_cases raw_qual) as [E|[E|[E|E]]]; rewrite E; vm_compute;
      repeat first [apply list_elem_of_here | apply list_elem_of_further].
  - vm_compute; repeat first [apply list_elem_of_here | apply list_elem_of_further].
  - vm_compute; repeat first [apply list_elem_of_here | apply list_elem_of_further].
  - vm_compute; repeat first [apply list_elem_of_here | apply list_elem_of_further].
  - vm_compute; repeat first [apply list_elem_of_here | apply list_elem_of_further].
Qed.

Lemma bare_not_suffixed base_key idx : u "bañoſ" <> suffixed base_key idx.
Proof.
  intros H.
  assert (Hin : 95 ∈ suffixed base_key idx).
  { unfold suffixed. apply elem_of_app. right. apply elem_of_app. left.
    vm_compute. apply list_elem_of_here. }
  rewrite <- H in Hin. vm_compute in Hin.
  repeat (apply elem_of_cons in Hin as [Hin|Hin]; [discriminate|]).
  apply elem_of_nil in Hin. exact Hin.
Qed.

Lemma bare_not_counted : u "bañoſ" ∉ counted_fields.
Proof. apply (bool_decide_unpack _). vm_compute. exact I. Qed.

Lemma base_key_bare raw_unit raw_qual :
  normalize_unit raw_unit = u "bañoſ" -> base_key_of raw_unit raw_qual = u "bañoſ".
Proof.
  unfold base_key_of. intros ->. cbv zeta.
  rewrite bool_decide_eq_false_2 by (intros H; vm_compute in H; discriminate).
  vm_compute. reflexivity.
Qed.

(** The second group of a match of [pattern] is a stretch of the text
    that [unit_re] matches. *)
Lemma pattern_unit s m :
  match_at true pattern s = Some m ->
  exists a w b c c',
    s = a ++ w ++ b /\ group 2 (m_caps m) = Some w /\ mat true unit_re w c c'.
Proof.
  intros H. apply match_at_sound in H as (w0 & Hs & _ & Hm).
  unfold pattern in Hm.
  inversion Hm as [| | |r1 r2 w1 w2 c0 c1 c2 Hg1 Hrest| | | | |]; subst.
  inversion Hrest as [| | |r1 r2 w3 w4 c0 c3 c4 Hsp Hrest2| | | | |]; subst.
  inversion Hrest2 as [| | |r1 r2 w5 w6 c0 c5 c6 Hg2 Hopt| | | | |]; subst.
  inversion Hg2 as [| | | | | | | |n r w c0 c7 Hunit]; subst.
  exists (w1 ++ w3), w5, (w6 ++ m_rest m), c3, c7.
  split; [rewrite <- ?app_assoc; reflexivity|].
  split; [|exact Hunit].
  inversion Hopt as [| | | |r1 r2 w c0 c8 Hq|r1 r2 w c0 c8 He| | |]; subst.
  - inversion Hq as [| | |r1 r2 w7 w8 c0 c9 c10 Hsp2 Hg3| | | | |]; subst.
    inversion Hg3 as [| | | | | | | |n r w c0 c11 Hqual]; subst.
    apply mat_groupless in Hsp2; [|reflexivity].
    apply mat_groupless in Hqual; [|reflexivity].
    subst c11 c9. reflexivity.
  - inversion He; subst. reflexivity.
Qed.


(** Every token falls under one of the counted fields, unless its unit
    is spelled with the long s: then its unit and its base key are
    [bañoſ]. *)
Lemma findall_units text :
  Forall (fun tok =>
            ((383 ∉ token_unit tok) /\ token_base tok ∈ counted_fields)
            \/ (383 ∈ token_unit tok
                /\ normalize_unit (token_unit tok) = u "bañoſ"
                /\ token_base tok = u "bañoſ"))
         (findall_features text).
Proof.
  unfold findall_features. apply Forall_fmap.
  eapply Forall_impl; [apply finditer_go_sound|]. simpl.
  intros m (s' & Hm & pre & Htext).
  destruct (pattern_unit s' m Hm) as (a & w & b & c & c' & Hs' & Hg & Hmat).
  unfold token_base, token_unit, grp. simpl. rewrite Hg. simpl.
  destruct (mat_spelling true unit_re w c c' Hmat eq_refl) as (pat & Hpat & Hw).
  destruct (normalize_unit_class w pat Hpat Hw) as [[Hno Hcan]|[Hs Hbare]].
  - left. split; [exact Hno|]. apply base_key_counted. exact Hcan.
  - right. split; [exact Hs|]. split; [exact Hbare|]. apply base_key_bare. exact Hbare.
Qed.

(** *** Keys *)

Lemma bytes_of_inj s1 s2 : bytes_of s1 = bytes_of s2 -> s1 = s2.
Proof.
  revert s2. induction s1 as [|a s1 IH]; intros [|b s2]; simpl; try discriminate.
  - reflexivity.
  - intros [= Hab Hs]. f_equal; [|apply IH; exact Hs].
    rewrite <- (ascii_N_embedding a), <- (ascii_N_embedding b), Hab. reflexivity.
Qed.

Lemma digit_char_not_underscore d : N_of_ascii (pretty_N_char d) <> 95.
Proof. unfold pretty_N_char. repeat case_match; vm_compute; discriminate. Qed.

Lemma pretty_N_go_no_underscore x : forall s,
  95 ∉ bytes_of s -> 95 ∉ bytes_of (pretty_N_go x s).
Proof.
  induction (N.lt_wf_0 x) as [x _ IH]. intros s Hs.
  destruct (decide (x = 0)) as [->|Hx].
  - rewrite pretty_N_go_0. exact Hs.
  - rewrite pretty_N_go_step by lia. apply IH.
    + apply N.div_lt; lia.
    + simpl. apply not_elem_of_cons. split; [|exact Hs].
      apply not_eq_sym, digit_char_not_underscore.
Qed.

Lemma str_nat_no_underscore n : 95 ∉ str_nat n.
Proof.
  unfold str_nat, pretty, pretty_nat, pretty, pretty_N.
  destruct (decide (N.of_nat n = 0)).
  - vm_compute. intros H. repeat (apply elem_of_cons in H as [H|H]; [discriminate|]).
    apply elem_of_nil in H. exact H.
  - apply pretty_N_go_no_underscore. simpl. apply not_elem_of_nil.
Qed.

Lemma str_nat_inj n n' : str_nat n = str_nat n' -> n = n'.
Proof. unfold str_nat. intros H. apply bytes_of_inj in H. apply (inj pretty). exact H. Qed.

Lemma underscore_split a : forall a' d d',
  95 ∉ d -> 95 ∉ d' -> a ++ 95 :: d = a' ++ 95 :: d' -> a = a' /\ d = d'.
Proof.
  induction a as [|x a IH]; intros [|x' a'] d d' Hd Hd'; simpl; intros H.
  - injection H as ->. auto.
  - injection H as <- ->. exfalso. apply Hd. apply elem_of_app. right. apply list_elem_of_here.
  - injection H as -> <-. exfalso. apply Hd'. apply elem_of_app. right. apply list_elem_of_here.
  - injection H as -> H. destruct (IH a' d d' Hd Hd' H) as [-> ->]. auto.
Qed.

Lemma suffixed_inj b n b' n' : suffixed b n = suffixed b' n' -> b = b' /\ n = n'.
Proof.
  unfold suffixed. change (u "_") with [95]. simpl. intros H.
  apply underscore_split in H as [-> H]; try apply str_nat_no_underscore.
  apply str_nat_inj in H. auto.
Qed.

(** *** Occurrence counts *)

Lemma occurrences_app b l1 l2 :
  occurrences b (l1 ++ l2) = (occurrences b l1 + occurrences b l2)%nat.
Proof. unfold occurrences. rewrite List.filter_app, length_app. reflexivity. Qed.

Lemma occurrences_one b tok :
  occurrences b [tok] = if bool_decide (token_base tok = b) then 1%nat else 0%nat.
Proof. unfold occurrences. simpl. destruct (bool_decide _); reflexivity. Qed.

Lemma occurrences_take_mono b toks i j :
  (i <= j)%nat -> (occurrences b (take i toks) <= occurrences b (take j toks))%nat.
Proof.
  intros Hij. rewrite <- (take_drop i (take j toks)), take_take, Nat.min_l by exact Hij.
  rewrite occurrences_app. lia.
Qed.

Lemma occurrences_take_S toks i tok :
  toks !! i = Some tok ->
  occurrences (token_base tok) (take (S i) toks)
  = S (occurrences (token_base tok) (take i toks)).
Proof.
  intros H. rewrite (take_S_r _ _ _ H), occurrences_app, occurrences_one.
  rewrite bool_decide_eq_true_2 by reflexivity. lia.
Qed.

Lemma indexed_snoc l t :
  indexed (l ++ [t])
  = indexed l ++ [(suffixed (token_base t) (occurrences (token_base t) l), token_value t)].
Proof.
  unfold indexed. rewrite imap_app. f_equal.
  - apply imap_ext. intros i x Hx. unfold indexed_key.
    rewrite take_app_le by (apply Nat.lt_le_incl; eapply lookup_lt_Some; exact Hx).
    reflexivity.
  - simpl. unfold indexed_key. rewrite Nat.add_0_r, take_app_length. reflexivity.
Qed.

Lemma indexed_keys_NoDup toks : NoDup (indexed toks).*1.
Proof.
  apply NoDup_alt. intros i j key Hi Hj.
  unfold indexed in Hi, Hj.
  rewrite list_lookup_fmap, list_lookup_imap in Hi, Hj.
  destruct (toks !! i) as [ti|] eqn:Ei; [|discriminate].
  destruct (toks !! j) as [tj|] eqn:Ej; [|discriminate].
  simpl in Hi, Hj. injection Hi as Hi. injection Hj as Hj.
  rewrite <- Hj in Hi. unfold indexed_key in Hi.
  apply suffixed_inj in Hi as [Hb Hn].
  destruct (Nat.lt_trichotomy i j) as [Hlt|[Heq|Hgt]]; [|exact Heq|]; exfalso.
  - pose proof (occurrences_take_S toks i ti Ei) as HS.
    pose proof (occurrences_take_mono (token_base ti) toks (S i) j Hlt) as Hm.
    rewrite <- Hb in Hn. lia.
  - pose proof (occurrences_take_S toks j tj Ej) as HS.
    pose proof (occurrences_take_mono (token_base tj) toks (S j) i Hgt) as Hm.
    rewrite Hb in Hn. lia.
Qed.


(** *** The loop over the tokens *)

Lemma appearance0_lookup b :
  features_appearance0 !! b = if bool_decide (b ∈ counted_fields) then Some 0%nat else None.
Proof.
  case_bool_decide as H.
  - unfold counted_fields in H.
    repeat (apply elem_of_cons in H as [->|H]; [vm_compute; reflexivity|]).
    apply elem_of_nil in H. contradiction.
  - unfold features_appearance0. apply not_elem_of_list_to_map_1. exact H.
Qed.

Lemma features_step_counted app feats tok idx :
  app !! token_base tok = Some idx ->
  features_step (app, feats) tok
  = (<[token_base tok := S idx]> app,
     <[suffixed (token_base tok) idx := token_value tok]> feats).
Proof.
  destruct tok as [[v un] q]. unfold features_step, token_base, token_value. simpl.
  intros ->. reflexivity.
Qed.

Lemma features_step_bare app feats tok :
  app !! token_base tok = None ->
  features_step (app, feats) tok = (app, <[token_base tok := token_value tok]> feats).
Proof.
  destruct tok as [[v un] q]. unfold features_step, token_base, token_value. simpl.
  intros ->. reflexivity.
Qed.

Lemma keyed_snoc l t :
  keyed (l ++ [t])
  = keyed l
    ++ [(if bool_decide (token_base t ∈ counted_fields)
         then suffixed (token_base t) (occurrences (token_base t) l)
         else token_base t,
         token_value t)].
Proof.
  unfold keyed. rewrite imap_app. f_equal.
  - apply imap_ext. intros i x Hx. unfold token_key, indexed_key.
    rewrite take_app_le by (apply Nat.lt_le_incl; eapply lookup_lt_Some; exact Hx).
    reflexivity.
  - simpl. unfold token_key, indexed_key. rewrite Nat.add_0_r, take_app_length. reflexivity.
Qed.

(** The loop, for any list of tokens: its counters hold the occurrences
    so far, and its mapping is the one of the keyed tokens, a later entry
    replacing an earlier one with the same key. *)
Lemma fold_keyed toks :
  exists app,
    fold_left features_step toks (features_appearance0, ∅)
    = (app, list_to_map (reverse (keyed toks)))
    /\ forall b, app !! b
                 = if bool_decide (b ∈ counted_fields)
                   then Some (occurrences b toks) else None.
Proof.
  induction toks as [|t l IH] using rev_ind.
  - exists features_appearance0. split; [reflexivity|]. apply appearance0_lookup.
  - destruct IH as (app & Hfold & Happ).
    rewrite fold_left_app, Hfold. cbn [fold_left].
    rewrite keyed_snoc, reverse_snoc, list_to_map_cons. cbn [fst snd].
    destruct (decide (token_base t ∈ counted_fields)) as [Ht|Ht].
    + assert (Hidx : app !! token_base t = Some (occurrences (token_base t) l)).
      { rewrite Happ, bool_decide_eq_true_2 by exact Ht. reflexivity. }
      rewrite (features_step_counted _ _ _ _ Hidx).
      rewrite (bool_decide_eq_true_2 _ Ht).
      eexists. split; [reflexivity|].
      intros b. rewrite occurrences_app, occurrences_one.
      destruct (decide (token_base t = b)) as [<-|Hne].
      * rewrite lookup_insert_eq, bool_decide_eq_true_2 by exact Ht.
        rewrite bool_decide_eq_true_2 by reflexivity. f_equal. lia.
      * rewrite lookup_insert_ne by exact Hne. rewrite Happ.
        rewrite (bool_decide_eq_false_2 (token_base t = b)) by exact Hne.
        rewrite Nat.add_0_r. reflexivity.
    + assert (Hidx : app !! token_base t = None).
      { rewrite Happ, bool_decide_eq_false_2 by exact Ht. reflexivity. }
      rewrite (features_step_bare _ _ _ Hidx).
      rewrite (bool_decide_eq_false_2 _ Ht).
      exists app. split; [reflexivity|].
      intros b. rewrite Happ, occurrences_app, occurrences_one.
      case_bool_decide as Hb; [|reflexivity].
      rewrite (bool_decide_eq_false_2 (token_base t = b)) by (intros E; apply Ht; rewrite E; exact Hb).
      rewrite Nat.add_0_r. reflexivity.
Qed.

Lemma parse_features_keyed text :
  parse_features text = list_to_map (reverse (keyed (findall_features text))).
Proof.
  unfold parse_features.
  destruct (fold_keyed (findall_features text)) as (app & -> & _). reflexivity.
Qed.

(** In the mapping built from a list of entries, the later entries
    replacing the earlier ones, a key holds the value of its last
    entry. *)
Lemma lookup_last_entry (l : list (pystr * pystr)) k v :
  (list_to_map (reverse l) : gmap pystr pystr) !! k = Some v
  <-> exists j, l !! j = Some (k, v)
        /\ forall j' e, (j < j')%nat -> l !! j' = Some e -> e.1 <> k.
Proof.
  induction l as [|[ky vy] l IH] using rev_ind.
  - rewrite reverse_nil. simpl. rewrite lookup_empty. split; [discriminate|].
    intros (j & Hj & _). rewrite lookup_nil in Hj. discriminate.
  - rewrite reverse_snoc, list_to_map_cons. cbn [fst snd].
    destruct (decide (ky = k)) as [->|Hne].
    + rewrite lookup_insert_eq. split.
      * intros [= ->]. exists (length l). split.
        -- rewrite lookup_app_r, Nat.sub_diag by lia. reflexivity.
        -- intros j' e Hlt He. apply lookup_lt_Some in He.
           rewrite length_app in He. simpl in He. lia.
      * intros (j & Hj & Hlast).
        destruct (decide (j = length l)) as [->|Hj'].
        -- rewrite lookup_app_r, Nat.sub_diag in Hj by lia. simpl in Hj. congruence.
        -- exfalso. pose proof (lookup_lt_Some _ _ _ Hj) as Hlt.
           rewrite length_app in Hlt. simpl in Hlt.
           apply (Hlast (length l) (k, vy)); [lia| |reflexivity].
           rewrite lookup_app_r, Nat.sub_diag by lia. reflexivity.
    + rewrite lookup_insert_ne by exact Hne. rewrite IH. split.
      * intros (j & Hj & Hlast). exists j. split.
        -- apply lookup_app_l_Some. exact Hj.
        -- intros j' e Hlt He. apply lookup_app_Some in He as [He|[Hge He]].
           ++ eapply Hlast; eassumption.
           ++ destruct (j' - length l)%nat; simpl in He; [|rewrite lookup_nil in He; discriminate].
              injection He as <-. exact Hne.
      * intros (j & Hj & Hlast).
        apply lookup_app_Some in Hj as [Hj|[Hge Hj]].
        -- exists j. split; [exact Hj|].
           intros j' e Hlt He. apply (Hlast j' e Hlt). apply lookup_app_l_Some. exact He.
        -- destruct (j - length l)%nat; simpl in Hj; [|rewrite lookup_nil in Hj; discriminate].
           congruence.
Qed.

(** The last position of a list at which a test holds, after a position
    at which it holds. *)
Lemma last_position {A} (f : A -> bool) (l : list A) : forall i x,
  l !! i = Some x -> f x = true ->
  exists j y, (i <= j)%nat /\ l !! j = Some y /\ f y = true
    /\ forall j' y', (j < j')%nat -> l !! j' = Some y' -> f y' = false.
Proof.
  induction l as [|z l IH] using rev_ind; intros i x Hi Hx.
  - rewrite lookup_nil in Hi. discriminate.
  - destruct (f z) eqn:Hz.
    + exists (length l), z.
      pose proof (lookup_lt_Some _ _ _ Hi) as Hlt. rewrite length_app in Hlt. simpl in Hlt.
      split; [lia|]. split; [rewrite lookup_app_r, Nat.sub_diag by lia; reflexivity|].
      split; [exact Hz|].
      intros j' y' Hlt' Hy'. apply lookup_lt_Some in Hy'.
      rewrite length_app in Hy'. simpl in Hy'. lia.
    + apply lookup_app_Some in Hi as [Hi|[Hge Hi]].
      * destruct (IH i x Hi Hx) as (j & y & Hij & Hj & Hy & Hlast).
        exists j, y. split; [exact Hij|]. split; [apply lookup_app_l_Some; exact Hj|].
        split; [exact Hy|].
        intros j' y' Hlt Hy'. apply lookup_app_Some in Hy' as [Hy'|[Hge Hy']].
        -- eapply Hlast; eassumption.
        -- destruct (j' - length l)%nat; simpl in Hy'; [|rewrite lookup_nil in Hy'; discriminate].
           injection Hy' as <-. exact Hz.
      * destruct (i - length l)%nat; simpl in Hi; [|rewrite lookup_nil in Hi; discriminate].
        congruence.
Qed.

Lemma keyed_lookup toks j e :
  keyed toks !! j = Some e <->
  exists tok, toks !! j = Some tok /\ e = (token_key toks j tok, token_value tok).
Proof.
  unfold keyed. rewrite list_lookup_imap.
  destruct (toks !! j) as [tok|]; simpl.
  - split; [intros [= <-]; eauto|]. intros (tok' & [= <-] & ->). reflexivity.
  - split; [discriminate|]. intros (tok' & H & _). discriminate.
Qed.

Lemma token_key_counted toks i tok :
  token_base tok ∈ counted_fields ->
  token_key toks i tok = suffixed (token_base tok) (occurrences (token_base tok) (take i toks)).
Proof. intros H. unfold token_key. rewrite bool_decide_eq_true_2 by exact H. reflexivity. Qed.

Lemma token_key_bare toks i tok :
  token_base tok = u "bañoſ" -> token_key toks i tok = u "bañoſ".
Proof.
  intros H. unfold token_key. rewrite H.
  rewrite bool_decide_eq_false_2 by apply bare_not_counted. reflexivity.
Qed.

(** The key of a token with a counted base field is the key of no other
    token. *)
Lemma token_key_unique toks i j ti tj :
  Forall (fun tok => token_base tok ∈ counted_fields \/ token_base tok = u "bañoſ") toks ->
  toks !! i = Some ti -> toks !! j = Some tj ->
  token_base ti ∈ counted_fields ->
  token_key toks j tj = token_key toks i ti -> i = j.
Proof.
  intros Hall Hi Hj Hc Hk.
  rewrite (token_key_counted toks i ti Hc) in Hk.
  rewrite Forall_forall in Hall.
  destruct (Hall tj (list_elem_of_lookup_2 _ _ _ Hj)) as [Hcj|Hbj].
  - rewrite (token_key_counted toks j tj Hcj) in Hk.
    pose proof (indexed_keys_NoDup toks) as Hnd.
    rewrite NoDup_alt in Hnd.
    apply (Hnd i j (suffixed (token_base ti) (occurrences (token_base ti) (take i toks)))).
    + unfold indexed. rewrite list_lookup_fmap, list_lookup_imap, Hi. reflexivity.
    + unfold indexed. rewrite list_lookup_fmap, list_lookup_imap, Hj. simpl.
      unfold indexed_key. rewrite Hk. reflexivity.
  - rewrite (token_key_bare toks j tj Hbj) in Hk.
    exfalso. exact (bare_not_suffixed _ _ Hk).
Qed.

Lemma keyed_indexed toks :
  Forall (fun tok => token_base tok ∈ counted_fields) toks -> keyed toks = indexed toks.
Proof.
  intros Hall. unfold keyed, indexed. apply imap_ext. intros i tok Hi.
  rewrite Forall_forall in Hall.
  rewrite (token_key_counted toks i tok (Hall tok (list_elem_of_lookup_2 _ _ _ Hi))).
  reflexivity.
Qed.

Lemma reverse_indexed_NoDup toks : NoDup (reverse (indexed toks)).*1.
Proof. rewrite fmap_reverse, reverse_Permutation. apply indexed_keys_NoDup. Qed.

(** C2, as amended.  In every feature string, a token whose unit is not
    spelled with the long s (U+017F) is filed under its base field, one
    of the eight counted fields, followed by an underscore and the number
    of earlier tokens with the same base field, so the indices of a base
    field start at 0 and go up by one per occurrence, from left to right.
    A token whose unit is spelled with the long s normalizes to none of
    the known units and is filed under the bare normalized unit, [bañoſ],
    a key without an index, which holds the value of the last such token.
    The mapping has no other key.  When no token's unit is spelled with
    the long s, the mapping has as many keys as the string has tokens. *)
Theorem parse_features_indexed text :
  let toks := findall_features text in
  (forall i tok, toks !! i = Some tok -> 383 ∉ token_unit tok ->
     token_base tok ∈ counted_fields
     /\ parse_features text
          !! suffixed (token_base tok) (occurrences (token_base tok) (take i toks))
        = Some (token_value tok))
  /\ (forall i tok, toks !! i = Some tok -> 383 ∈ token_unit tok ->
        normalize_unit (token_unit tok) = u "bañoſ"
        /\ token_base tok = u "bañoſ"
        /\ (forall base_key idx, u "bañoſ" <> suffixed base_key idx)
        /\ exists j last,
             (i <= j)%nat /\ toks !! j = Some last /\ 383 ∈ token_unit last
             /\ (forall j' tok', (j < j')%nat -> toks !! j' = Some tok' ->
                   383 ∉ token_unit tok')
             /\ parse_features text !! u "bañoſ" = Some (token_value last))
  /\ (forall key value, parse_features text !! key = Some value ->
        exists i tok,
          toks !! i = Some tok
          /\ value = token_value tok
          /\ key = if bool_decide (383 ∈ token_unit tok) then u "bañoſ"
                   else suffixed (token_base tok)
                          (occurrences (token_base tok) (take i toks)))
  /\ (Forall (fun tok => 383 ∉ token_unit tok) toks ->
      size (parse_features text) = length toks).
Proof.
  intros toks. rewrite (parse_features_keyed text). fold toks.
  pose proof (findall_units text) as Hunits. fold toks in Hunits.
  assert (Hall : Forall (fun tok => token_base tok ∈ counted_fields
                                    \/ token_base tok = u "bañoſ") toks).
  { eapply Forall_impl; [exact Hunits|]. simpl. intros tok [[_ H]|(_ & _ & H)]; auto. }
  rewrite Forall_forall in Hunits.
  assert (Hcounted : forall i tok, toks !! i = Some tok -> 383 ∉ token_unit tok ->
            token_base tok ∈ counted_fields).
  { intros i tok Hi Hno.
    destruct (Hunits tok (list_elem_of_lookup_2 _ _ _ Hi)) as [[_ H]|[H _]];
      [exact H|contradiction]. }
  split; [|split; [|split]].
  - intros i tok Hi Hno. pose proof (Hcounted i tok Hi Hno) as Hc.
    split; [exact Hc|].
    apply lookup_last_entry. exists i. split.
    + apply keyed_lookup. exists tok. split; [exact Hi|].
      rewrite (token_key_counted toks i tok Hc). reflexivity.
    + intros j' e Hlt He. apply keyed_lookup in He as (tj & Hj & ->). simpl.
      rewrite <- (token_key_counted toks i tok Hc). intros Hk.
      pose proof (token_key_unique toks i j' tok tj Hall Hi Hj Hc Hk). lia.
  - intros i tok Hi Hs.
    destruct (Hunits tok (list_elem_of_lookup_2 _ _ _ Hi)) as [[H _]|(_ & Hn & Hb)];
      [contradiction|].
    split; [exact Hn|]. split; [exact Hb|]. split; [apply bare_not_suffixed|].
    destruct (last_position (fun tok => bool_decide (383 ∈ token_unit tok)) toks i tok Hi)
      as (j & last & Hij & Hj & Hlast & Hafter).
    { apply bool_decide_eq_true_2. exact Hs. }
    apply bool_decide_eq_true in Hlast.
    exists j, last. split; [exact Hij|]. split; [exact Hj|]. split; [exact Hlast|].
    assert (Hno : forall j' tok', (j < j')%nat -> toks !! j' = Some tok' ->
              383 ∉ token_unit tok').
    { intros j' tok' Hlt Hj'. apply (bool_decide_eq_false (383 ∈ token_unit tok')).
      eapply Hafter; eassumption. }
    split; [exact Hno|].
    destruct (Hunits last (list_elem_of_lookup_2 _ _ _ Hj)) as [[H _]|(_ & _ & Hbl)];
      [contradiction|].
    apply lookup_last_entry. exists j. split.
    + apply keyed_lookup. exists last. split; [exact Hj|].
      rewrite (token_key_bare toks j last Hbl). reflexivity.
    + intros j' e Hlt He. apply keyed_lookup in He as (tj & Hj' & ->). simpl.
      rewrite (token_key_counted toks j' tj (Hcounted j' tj Hj' (Hno j' tj Hlt Hj'))).
      apply not_eq_sym, bare_not_suffixed.
  - intros key value H.
    apply lookup_last_entry in H as (i & Hi & _).
    apply keyed_lookup in Hi as (tok & Hi & [= -> ->]).
    exists i, tok. split; [exact Hi|]. split; [reflexivity|].
    destruct (Hunits tok (list_elem_of_lookup_2 _ _ _ Hi)) as [[Hno Hc]|(Hs & _ & Hb)].
    + rewrite (bool_decide_eq_false_2 _ Hno). apply token_key_counted. exact Hc.
    + rewrite (bool_decide_eq_true_2 _ Hs). apply token_key_bare. exact Hb.
  - intros Hno.
    assert (Hc : Forall (fun tok => token_base tok ∈ counted_fields) toks).
    { apply Forall_lookup. intros i tok Hi. apply (Hcounted i tok Hi).
      rewrite Forall_lookup in Hno. apply (Hno i tok Hi). }
    rewrite (keyed_indexed toks Hc).
    rewrite map_size_list_to_map by apply reverse_indexed_NoDup.
    rewrite length_reverse. unfold indexed. apply length_imap.
Qed.

Lemma parse_features_indexed_witness :
  size (parse_features test_features) = length (findall_features test_features)
  /\ exists j last,
       (0 <= j)%nat
       /\ findall_features (u "3 bañoſ | 4 bañoſ") !! j = Some last
       /\ 383 ∈ token_unit last
       /\ (forall j' tok', (j < j')%nat ->
             findall_features (u "3 bañoſ | 4 bañoſ") !! j' = Some tok' ->
             383 ∉ token_unit tok')
       /\ parse_features (u "3 bañoſ | 4 bañoſ") !! u "bañoſ" = Some (token_value last).
Proof.
  split.
  - apply (proj2 (proj2 (proj2 (parse_features_indexed test_features)))).
    apply (bool_decide_unpack _). vm_compute. exact I.
  - apply (proj1 (proj2 (parse_features_indexed (u "3 bañoſ | 4 bañoſ")))
             0%nat (u "3", u "bañoſ", [])).
    + vm_compute. reflexivity.
    + apply (bool_decide_unpack _). vm_compute. exact I.
Defined.

(** C2, as stated, fails.  Under IGNORECASE the [s] of the bathroom unit
    also matches the long s; [normalize_unit] leaves that spelling as it
    is, no field is counted under it, and the token is filed under the
    bare unit: a key without a suffix, and one key for two tokens. *)
Lemma long_s_unit_is_not_suffixed :
  findall_features (u "3 bañoſ") = [(u "3", u "bañoſ", [])]
  /\ parse_features (u "3 bañoſ") = {[ u "bañoſ" := u "3" ]}
  /\ (forall base_key idx, u "bañoſ" <> suffixed base_key idx)
  /\ length (findall_features (u "3 bañoſ | 4 bañoſ")) = 2%nat
  /\ size (parse_features (u "3 bañoſ | 4 bañoſ")) = 1%nat.
Proof.
  split; [vm_compute; reflexivity|].
  split; [vm_compute; reflexivity|].
  split; [|split; vm_compute; reflexivity].
  apply bare_not_suffixed.
Qed.
End FeatureFacts.
(** ** What the patterns need from a text *)

Module PatternFacts.
Import Scraper ExcelExport ReFacts.

(** The decimal digits of a text. *)
Abbreviation digits_in s := (List.filter is_digit s).

Lemma mat_plus_digit ic w c c' :
  mat ic (Plus (Cls Digit)) w c c' ->
  exists d w', w = d :: w' /\ is_digit d = true.
Proof.
  unfold Plus. intros H.
  inversion H as [| | |r1 r2 w1 w2 c0 c1 c2 Hd _| | | | |]; subst.
  inversion Hd; subst. simpl. eauto.
Qed.

Lemma mat_number_head ic w c c' :
  mat ic number_re w c c' -> exists d w', w = d :: w' /\ is_digit d = true.
Proof.
  unfold number_re. intros H.
  inversion H as [| | |r1 r2 w1 w2 c0 c1 c2 Hp _| | | | |]; subst.
  apply mat_plus_digit in Hp as (d & w' & -> & Hd). simpl. eauto.
Qed.

Lemma mat_count_digits ic w c c' :
  mat ic count_re w c c' -> (2 <= length (digits_in w))%nat.
Proof.
  unfold count_re. intros H.
  inversion H as [| | |r1 r2 w1 w2 c0 c1 c2 Hp Hrest| | | | |]; subst.
  inversion Hrest as [| | |r1 r2 w3 w4 c0 c3 c4 _ Hq| | | | |]; subst.
  apply mat_plus_digit in Hp as (d1 & w1' & -> & Hd1).
  apply mat_plus_digit in Hq as (d2 & w4' & -> & Hd2).
  rewrite !List.filter_app, !length_app. simpl. rewrite Hd1, Hd2. simpl. lia.
Qed.

Lemma mat_pattern_head w c c' :
  mat true pattern w c c' -> exists d w', w = d :: w' /\ is_digit d = true.
Proof.
  unfold pattern. intros H.
  inversion H as [| | |r1 r2 w1 w2 c0 c1 c2 Hg _| | | | |]; subst.
  inversion Hg; subst.
  match goal with H : mat _ number_re _ _ _ |- _ =>
    apply mat_number_head in H as (d & w' & -> & Hd) end.
  simpl. eauto.
Qed.

(** Every match lies in the text. *)
Lemma finditer_inside ic r text :
  Forall (fun m => exists pre post, text = pre ++ m_text m ++ post
                                   /\ mat ic r (m_text m) [] (m_caps m))
         (finditer ic r text).
Proof.
  eapply Forall_impl; [apply finditer_go_sound|]. simpl.
  intros m (s' & Hm & pre & ->).
  apply match_at_sound in Hm as (w & -> & <- & Hmat).
  exists pre, (m_rest m). split; [reflexivity|exact Hmat].
Qed.

Lemma search_inside ic r text m :
  search ic r text = Some m ->
  exists pre post, text = pre ++ m_text m ++ post /\ mat ic r (m_text m) [] (m_caps m).
Proof.
  induction text as [|x text IH]; simpl.
  - destruct (match_at ic r []) as [m'|] eqn:E; [|discriminate].
    intros [= <-]. apply match_at_sound in E as (w & Hs & <- & Hmat).
    exists [], (m_rest m'). split; [exact Hs|exact Hmat].
  - destruct (match_at ic r (x :: text)) as [m'|] eqn:E.
    + intros [= <-]. apply match_at_sound in E as (w & Hs & <- & Hmat).
      exists [], (m_rest m'). split; [exact Hs|exact Hmat].
    + intros H. destruct (IH H) as (pre & post & -> & Hc).
      exists (x :: pre), post. split; [reflexivity|exact Hc].
Qed.

Lemma digits_in_app a b : digits_in (a ++ b) = digits_in a ++ digits_in b.
Proof. apply List.filter_app. Qed.

Lemma no_digits_no_match ic r text :
  (forall w c', mat ic r w [] c' -> exists d w', w = d :: w' /\ is_digit d = true) ->
  digits_in text = [] -> finditer ic r text = [].
Proof.
  intros Hhead Hnone.
  pose proof (finditer_inside ic r text) as Hall.
  destruct (finditer ic r text) as [|m l]; [reflexivity|].
  apply Forall_inv in Hall as (pre & post & Htext & Hmat).
  apply Hhead in Hmat as (d & w' & Hw & Hd).
  rewrite Htext, Hw, !digits_in_app in Hnone. simpl in Hnone. rewrite Hd in Hnone.
  apply app_eq_nil in Hnone as [_ Hnone]. discriminate.
Qed.

Lemma few_digits_no_count text :
  (length (digits_in text) < 2)%nat -> finditer false count_re text = [].
Proof.
  intros Hfew.
  pose proof (finditer_inside false count_re text) as Hall.
  destruct (finditer false count_re text) as [|m l]; [reflexivity|].
  apply Forall_inv in Hall as (pre & post & Htext & Hmat).
  apply mat_count_digits in Hmat.
  rewrite Htext, !digits_in_app, !length_app in Hfew. lia.
Qed.

(** X1.  A feature string without a decimal digit yields the empty
    mapping: every token starts with a number. *)
Theorem parse_features_without_digits text :
  digits_in text = [] -> parse_features text = ∅.
Proof.
  intros H. unfold parse_features, findall_features.
  rewrite (no_digits_no_match true pattern text); [reflexivity| |exact H].
  intros w c'. apply mat_pattern_head.
Qed.

Lemma parse_features_without_digits_witness :
  parse_features (u "Monoambiente | a estrenar") = ∅.
Proof. apply parse_features_without_digits. vm_compute. reflexivity. Defined.

(** X2.  A price text with fewer than two decimal digits is kept as raw
    text with no currency, whatever marker it has: the numeric pattern
    needs two digits, so a one-digit price is not parsed. *)
Theorem one_digit_price_degrades text :
  (length (digits_in text) < 2)%nat ->
  parse_currency_value text = (PStr text, PNone).
Proof.
  intros H. unfold parse_currency_value, parse_currency_try.
  rewrite (few_digits_no_count text H). reflexivity.
Qed.

Lemma one_digit_price_degrades_witness :
  parse_currency_value (u "USD 5") = (PStr (u "USD 5"), PNone).
Proof. apply one_digit_price_degrades. vm_compute. lia. Defined.

(** X3.  When the first heading of the first page has fewer than two
    decimal digits, as with a count under ten, [get_estates_quantity]
    raises [IndexError]; and so does [scrap_website], before any listing
    page is parsed. *)
Theorem one_digit_count_raises browser bs4 base_url page h1 rest fuel :
  browser (base_url ++ HTML_EXTENSION) = Ok page ->
  h1_texts page = h1 :: rest ->
  (length (digits_in h1) < 2)%nat ->
  get_estates_quantity browser base_url = Raise IndexError
  /\ scrap_website browser bs4 base_url fuel = Some (Raise IndexError).
Proof.
  intros Hb Hh Hd.
  assert (Hq : get_estates_quantity browser base_url = Raise IndexError).
  { unfold get_estates_quantity. rewrite Hb. simpl. rewrite Hh. simpl.
    rewrite (few_digits_no_count h1 Hd). reflexivity. }
  split; [exact Hq|]. unfold scrap_website. rewrite Hq. reflexivity.
Qed.

Lemma one_digit_count_raises_witness :
  scrap_website nine_browser AsNone (u "casas") 5 = Some (Raise IndexError).
Proof.
  apply (proj2 (one_digit_count_raises nine_browser AsNone (u "casas")
                  {| h1_texts := [u "9 Casas en venta"]; estate_posts := [plain_post] |}
                  (u "9 Casas en venta") [] 5
                  ltac:(reflexivity) ltac:(reflexivity) ltac:(vm_compute; lia))).
Defined.

End PatternFacts.

(** ** Cards and pages *)

Module CardExtras.
Import Scraper ReFacts PatternFacts.

Lemma lit_match_exact p x : lit_match false p x = true -> x = p.
Proof. unfold lit_match. apply N.eqb_eq. Qed.

Lemma spelled_exact w pat :
  Forall2 (fun x p => lit_match false p x = true) w pat -> w = pat.
Proof.
  induction 1 as [|x p w pat H _ IH]; [reflexivity|].
  apply lit_match_exact in H. congruence.
Qed.

Lemma mat_lits_exact s w c c' : mat false (lits s) w c c' -> w = s /\ c' = c.
Proof.
  intros H. split.
  - destruct (mat_spelling false (lits s) w c c' H) as (pat & Hpat & Hw).
    + clear. induction s; simpl; [reflexivity|assumption].
    + apply spelled_exact in Hw. subst w.
      clear H. revert pat Hpat. induction s as [|a s IH]; simpl; intros pat Hpat.
      * apply list_elem_of_singleton in Hpat. exact Hpat.
      * rewrite app_nil_r in Hpat.
        apply list_elem_of_bind in Hpat as (w2 & Hpat & Hw2).
        apply IH in Hw2. subst w2. apply list_elem_of_singleton in Hpat. exact Hpat.
  - eapply mat_groupless; [exact H|].
    clear. induction s; simpl; [reflexivity|assumption].
Qed.

(** The groups of a match of the currency pattern. *)
Lemma currency_groups w c' :
  mat false currency_re w [] c' ->
  c' = [(1%nat, u "USD")] \/ c' = [(2%nat, u "ARS")] \/ c' = [(3%nat, u "$")].
Proof.
  unfold currency_re. intros H.
  inversion H as [| | | |r1 r2 w0 c0 c1 H1|r1 r2 w0 c0 c1 H23| | |]; subst.
  - inversion H1 as [| | | | | | | |n r w0 c0 c1 Hl]; subst.
    apply (mat_lits_exact (u "USD")) in Hl as [-> ->]. auto.
  - inversion H23 as [| | | |r1 r2 w0 c0 c1 H2|r1 r2 w0 c0 c1 H3| | |]; subst.
    + inversion H2 as [| | | | | | | |n r w0 c0 c1 Hl]; subst.
      apply (mat_lits_exact (u "ARS")) in Hl as [-> ->]. auto.
    + inversion H3 as [| | | | | | | |n r w0 c0 c1 Hl]; subst.
      inversion Hl; subst.
      match goal with H : lit_match false _ _ = true |- _ =>
        apply lit_match_exact in H; subst end.
      auto.
Qed.

(** The first non-empty group, for each shape of the captures. *)
Lemma marker_of_groups m :
  m_caps m = [(1%nat, u "USD")] \/ m_caps m = [(2%nat, u "ARS")]
  \/ m_caps m = [(3%nat, u "$")] ->
  exists t,
    first (List.filter (fun x => negb (bool_decide (x = [])))
             [grp 1 m; grp 2 m; grp 3 m]) = Ok t
    /\ (t = u "USD" \/ t = u "ARS" \/ t = u "$").
Proof.
  unfold grp. intros [-> | [-> | ->]]; eexists; (split; [vm_compute; reflexivity|]); auto.
Qed.

Lemma parse_currency_try_ok text v ty :
  parse_currency_try text = Ok (v, ty) ->
  exists tok m l,
    finditer false currency_re text = m :: l
    /\ v = Z.of_N (int_of_digits (replace1 46 [] tok))
    /\ first (List.filter (fun x => negb (bool_decide (x = [])))
                [grp 1 m; grp 2 m; grp 3 m]) = Ok ty.
Proof.
  unfold parse_currency_try.
  destruct (first (map m_text (finditer false count_re text))) as [tok|]; [|discriminate].
  cbn [mbind exc_bind].
  destruct (int_of_text (replace1 46 [] tok)) as [n|] eqn:En; [|discriminate].
  unfold int_of_text in En.
  destruct (4300 <? length (replace1 46 [] tok))%nat; [discriminate|]. injection En as <-.
  destruct (finditer false currency_re text) as [|m l]; [discriminate|].
  cbn [map first mbind exc_bind mret exc_ret].
  destruct (first (List.filter _ [grp 1 m; grp 2 m; grp 3 m])) as [t|] eqn:Ef;
    [|discriminate].
  intros [= <- <-]. exists tok, m, l. auto.
Qed.

(** X4.  When [parse_currency_value] returns an integer, the integer is
    not negative and the currency type is exactly [USD], [ARS] or the
    sigil [$]: no other marker is ever reported. *)
Theorem parsed_currency_is_known text n t :
  parse_currency_value text = (PInt n, t) ->
  (0 <= n)%Z /\ (t = PStr (u "USD") \/ t = PStr (u "ARS") \/ t = PStr (u "$")).
Proof.
  unfold parse_currency_value.
  destruct (parse_currency_try text) as [[v ty]|e] eqn:E; [|discriminate].
  intros [= <- <-].
  apply parse_currency_try_ok in E as (tok & m & l & Hfind & -> & Hty).
  split; [apply N2Z.is_nonneg|].
  pose proof (finditer_inside false currency_re text) as Hall.
  rewrite Hfind in Hall. apply Forall_inv in Hall as (_ & _ & _ & Hmat).
  apply currency_groups in Hmat.
  destruct (marker_of_groups m Hmat) as (t' & Ht' & Hcases).
  rewrite Ht' in Hty. injection Hty as <-.
  destruct Hcases as [-> | [-> | ->]]; auto.
Qed.

Lemma parsed_currency_is_known_witness :
  (0 <= 150000)%Z
  /\ (PStr (u "$") = PStr (u "USD") \/ PStr (u "$") = PStr (u "ARS")
      \/ PStr (u "$") = PStr (u "$")).
Proof.
  apply (parsed_currency_is_known (u "U$S 150.000")). vm_compute. reflexivity.
Defined.

(** *** parse_estate *)

Lemma estate_field_keeps estate data k :
  is_Some (estate !! k) -> is_Some (estate_field estate data !! k).
Proof.
  intros H. destruct data as [label text]. unfold estate_field.
  repeat match goal with
  | |- context [if ?b then _ else _] => destruct b
  | |- context [let '(_, _) := ?p in _] => destruct p
  end;
  rewrite ?lookup_insert_is_Some', ?lookup_union_is_Some; auto.
Qed.

Lemma fold_estate_keeps datas : forall estate k,
  is_Some (estate !! k) -> is_Some (fold_left estate_field datas estate !! k).
Proof.
  induction datas as [|d datas IH]; intros estate k H; simpl; [exact H|].
  apply IH, estate_field_keeps, H.
Qed.

(** X5.  A card [parse_estate] returns always has the key [url],
    whatever labels the listing block carries; and on a block that has
    its [data-to-posting] attribute [parse_estate] does not raise. *)
Theorem parse_estate_has_url bs4 estate_post :
  (forall card, parse_estate bs4 estate_post = Ok card -> is_Some (card !! u "url"))
  /\ (is_Some (data_to_posting estate_post) ->
      exists card, parse_estate bs4 estate_post = Ok card).
Proof.
  unfold parse_estate. split.
  - intros card.
    destruct (first (get_attribute_list bs4 (data_to_posting estate_post))) as [url|];
      [|discriminate].
    simpl. intros [= <-]. apply fold_estate_keeps.
    rewrite lookup_insert_eq. eauto.
  - intros [s ->]. simpl. eauto.
Qed.

Lemma parse_estate_has_url_witness :
  exists card, parse_estate AsEmptyList priced_post = Ok card.
Proof.
  apply (proj2 (parse_estate_has_url AsEmptyList priced_post)). simpl. eauto.
Defined.

(** *** Pages *)

Lemma str_nat_ne_one_suffix n rest : u ".html" <> u "-pagina-" ++ str_nat n ++ rest.
Proof. vm_compute (u ".html"). vm_compute (u "-pagina-"). simpl. discriminate. Qed.

(** X6.  Different page numbers are fetched from different URLs: the URL
    of page 1 has no page suffix, and the decimal page number in the
    suffix of the others tells them apart. *)
Theorem page_url_inj base_url n m :
  page_url base_url n = page_url base_url m -> n = m.
Proof.
  unfold page_url, HTML_EXTENSION, PAGE_URL_SUFFIX.
  destruct (Nat.eqb_spec n 1) as [->|Hn], (Nat.eqb_spec m 1) as [->|Hm]; intros H.
  - reflexivity.
  - apply app_inv_head in H. exfalso.
    apply (str_nat_ne_one_suffix m (u ".html")). exact H.
  - apply app_inv_head in H. exfalso.
    apply (str_nat_ne_one_suffix n (u ".html")). symmetry. exact H.
  - apply app_inv_head, app_inv_head, app_inv_tail in H.
    apply FeatureFacts.str_nat_inj. exact H.
Qed.

Lemma page_url_inj_witness : 2%nat = 2%nat.
Proof. apply (page_url_inj (u "casas") 2 2). reflexivity. Defined.

Section Run.
Variable browser : pystr -> exc listing_page.
Variable bs4 : missing_attribute.
Variable base_url : pystr.
Variable estates_quantity : N.

Lemma cards_of_pages_snoc k : forall p,
  cards_of_pages browser bs4 base_url p (S k)
  = cards_of_pages browser bs4 base_url p k
    ++ match scrap_page browser bs4 base_url (p + k) with Ok new => new | Raise _ => [] end.
Proof.
  induction k as [|k IH]; intros p.
  - simpl. rewrite Nat.add_0_r, app_nil_r. reflexivity.
  - change (cards_of_pages browser bs4 base_url p (S (S k)))
      with (match scrap_page browser bs4 base_url p with Ok new => new | Raise _ => [] end
            ++ cards_of_pages browser bs4 base_url (S p) (S k)).
    rewrite IH. simpl. rewrite <- app_assoc, Nat.add_succ_r. reflexivity.
Qed.

End Run.



End CardExtras.

(** ** What the extractors and the export keep *)

Module ExtractorExtras.
Import Scraper ExcelExport.

Lemma aget_aset_eq out key v : aget (aset out key v) key = v.
Proof. destruct key; reflexivity. Qed.

Lemma aget_aset_ne out key v k : key <> k -> aget (aset out key v) k = aget out k.
Proof. destruct key, k; intros H; try reflexivity; contradiction. Qed.

Lemma aset_keeps out key v k q :
  aget out key = None -> aget out k = Some q -> aget (aset out key v) k = Some q.
Proof.
  intros Hn Hk. rewrite aget_aset_ne; [exact Hk|]. intros ->. congruence.
Qed.

(** *** Labeled text *)

Lemma label_step_keeps txt low out e k q :
  aget out k = Some q -> aget (label_step txt low out e) k = Some q.
Proof.
  intros H. destruct e as [lbl key]. unfold label_step.
  destruct (aget out key) eqn:E; [exact H|].
  destruct (contains lbl low); [|exact H].
  destruct (search true area_re txt); [|exact H].
  apply aset_keeps; assumption.
Qed.

Lemma fold_label_keeps txt low l : forall out k q,
  aget out k = Some q -> aget (fold_left (label_step txt low) l out) k = Some q.
Proof.
  induction l as [|e l IH]; intros out k q H; simpl; [exact H|].
  apply IH, label_step_keeps, H.
Qed.

Lemma label_loop_keeps candidates : forall out k q,
  aget out k = Some q -> aget (label_loop candidates out) k = Some q.
Proof.
  induction candidates as [|txt rest IH]; intros out k q H; [exact H|].
  rewrite AreaFacts.label_loop_cons.
  destruct txt as [|c txt]; [auto|].
  pose proof (fold_label_keeps (c :: txt) (lower (c :: txt)) label_map out k q H) as Hs.
  destruct (all_filled _); auto.
Qed.

Lemma label_loop_app c1 c2 : forall out,
  label_loop (c1 ++ c2) out = label_loop c1 out
  \/ label_loop (c1 ++ c2) out = label_loop c2 (label_loop c1 out).
Proof.
  induction c1 as [|txt c1 IH]; intros out; [right; reflexivity|].
  rewrite <- app_comm_cons, !AreaFacts.label_loop_cons.
  destruct txt as [|c txt]; [apply IH|].
  destruct (all_filled _); [left; reflexivity|apply IH].
Qed.

(** X8.  In the labeled-text extractor the first block that fills a
    field decides it: text blocks further down the page never change a
    field an earlier block has filled. *)
Theorem labeled_text_first_block_wins c1 c2 key q :
  aget (_parse_detail_areas_from_html c1) key = Some q ->
  aget (_parse_detail_areas_from_html (c1 ++ c2)) key = Some q.
Proof.
  unfold _parse_detail_areas_from_html. intros H.
  rewrite take_app.
  destruct (label_loop_app (take 2000 c1) (take (2000 - length c1) c2) out0) as [->| ->].
  - exact H.
  - apply label_loop_keeps, H.
Qed.

Lemma labeled_text_first_block_wins_witness :
  aget (_parse_detail_areas_from_html
          ([u "Superficie total 300 m²"] ++ [u "Superficie total: 95 m2"])) K_total
  = Some 300%Q.
Proof. apply labeled_text_first_block_wins. vm_compute. reflexivity. Defined.

(** *** Structured metadata *)

Section Metadata.
Variable str_other : json -> pystr.

Lemma key_step_keeps d out e k q :
  aget out k = Some q -> aget (key_step str_other d out e) k = Some q.
Proof.
  intros H. destruct e as [key target]. unfold key_step.
  destruct (jlookup key d) as [v|]; [|exact H].
  destruct (aget out target) eqn:E; [exact H|].
  destruct v; try exact H; apply aset_keeps; assumption.
Qed.

Lemma guarded_set_keeps out key (b : bool) v k q :
  aget out k = Some q ->
  aget (match aget out key with
        | None => if b then aset out key v else out
        | Some _ => out
        end) k = Some q.
Proof.
  intros H. destruct (aget out key) eqn:E; [exact H|].
  destruct b; [|exact H]. apply aset_keeps; assumption.
Qed.

Lemma property_step_keeps out item k q :
  aget out k = Some q -> aget (property_step str_other out item) k = Some q.
Proof.
  intros H. destruct item; try exact H. unfold property_step.
  apply (guarded_set_keeps _ K_land).
  apply (guarded_set_keeps _ K_covered).
  apply (guarded_set_keeps _ K_total). exact H.
Qed.

Lemma fold_keeps {B} (f : areas -> B -> areas) l :
  (forall out b k q, aget out k = Some q -> aget (f out b) k = Some q) ->
  forall out k q, aget out k = Some q -> aget (fold_left f l out) k = Some q.
Proof.
  intros Hf. induction l as [|b l IH]; intros out k q H; simpl; [exact H|].
  apply IH, Hf, H.
Qed.

Lemma dict_step_keeps out d k q :
  aget out k = Some q -> aget (dict_step str_other out d) k = Some q.
Proof.
  intros H. unfold dict_step.
  assert (Hk : aget (fold_left (key_step str_other d) known_keys out) k = Some q).
  { apply fold_keeps; [|exact H]. intros o b. apply key_step_keeps. }
  destruct (jget d (u "additionalProperty")); try exact Hk.
  apply fold_keeps; [|exact Hk]. intros o b. apply property_step_keeps.
Qed.

Lemma walk_json_list l : _walk_json (JList l) = flat_map _walk_json l.
Proof. reflexivity. Qed.
End Metadata.

(** X9.  In the structured-metadata extractor the first value found for
    a field wins: metadata blocks that come later in the page never
    change a field an earlier block has filled. *)
Theorem metadata_first_block_wins str_other b1 b2 key q :
  aget (_parse_detail_areas_from_jsonld str_other b1) key = Some q ->
  aget (_parse_detail_areas_from_jsonld str_other (b1 ++ b2)) key = Some q.
Proof.
  unfold _parse_detail_areas_from_jsonld. intros H.
  rewrite walk_json_list, flat_map_app, fold_left_app, <- walk_json_list.
  apply fold_keeps; [|exact H]. intros o b. apply dict_step_keeps.
Qed.

Lemma metadata_first_block_wins_witness :
  aget (_parse_detail_areas_from_jsonld no_str
          ([JDict [(u "floorSize", JInt 85)]]
           ++ [JDict [(u "floorSize", JStr (u "120 m2"))]])) K_covered
  = Some 85%Q.
Proof. apply metadata_first_block_wins. vm_compute. reflexivity. Defined.

(** *** Icon features *)

Lemma for_keeps q v : nonzero q = true -> for_ (Some q) v = Some q.
Proof. unfold for_. intros ->. reflexivity. Qed.

Lemma icon_update_keeps classes val out k q :
  aget out k = Some q -> nonzero q = true ->
  aget (icon_update classes val out) k = Some q.
Proof.
  intros H Hq. unfold icon_update.
  repeat case_bool_decide; try exact H;
    destruct k; simpl in *; try exact H; rewrite H; apply for_keeps; exact Hq.
Qed.

Lemma icon_loop_keeps lis : forall out k q,
  aget out k = Some q -> nonzero q = true -> aget (icon_loop lis out) k = Some q.
Proof.
  induction lis as [|li rest IH]; intros out k q H Hq; [exact H|].
  rewrite AreaFacts.icon_loop_cons.
  destruct (li_icon li) as [classes|]; [|auto].
  destruct (_clean_number (Some (li_text li))) as [val|]; [|auto].
  pose proof (icon_update_keeps classes val out k q H Hq) as Hu.
  destruct (all_filled _); auto.
Qed.

Lemma icon_loop_app l1 l2 : forall out,
  icon_loop (l1 ++ l2) out = icon_loop l1 out
  \/ icon_loop (l1 ++ l2) out = icon_loop l2 (icon_loop l1 out).
Proof.
  induction l1 as [|li l1 IH]; intros out; [right; reflexivity|].
  rewrite <- app_comm_cons, !AreaFacts.icon_loop_cons.
  destruct (li_icon li) as [classes|]; [|apply IH].
  destruct (_clean_number (Some (li_text li))) as [val|]; [|apply IH].
  destruct (all_filled _); [left; reflexivity|apply IH].
Qed.

(** X10.  In the icon extractor the first list item that gives a field
    a value other than zero decides it: items further down never change
    such a field. *)
Theorem icon_first_nonzero_wins l1 l2 key q :
  aget (_parse_detail_areas_from_icon_features l1) key = Some q ->
  nonzero q = true ->
  aget (_parse_detail_areas_from_icon_features (l1 ++ l2)) key = Some q.
Proof.
  unfold _parse_detail_areas_from_icon_features. intros H Hq.
  destruct (icon_loop_app l1 l2 out0) as [->| ->].
  - exact H.
  - apply icon_loop_keeps; assumption.
Qed.

Lemma icon_first_nonzero_wins_witness :
  aget (_parse_detail_areas_from_icon_features
          (pg_icon_features flat_page
           ++ [ {| li_icon := Some [u "icon-scubierta"]; li_text := u "75 m² cub." |} ]))
       K_covered
  = Some 50%Q.
Proof. apply icon_first_nonzero_wins; vm_compute; reflexivity. Defined.

(** *** Rows *)

Lemma mapM_exc_length {A B} (f : A -> exc B) l : forall l',
  mapM f l = Ok l' -> length l' = length l.
Proof.
  induction l as [|x l IH]; simpl; intros l'.
  - intros [= <-]. reflexivity.
  - destruct (f x) as [y|]; simpl; [|discriminate].
    destruct (mapM f l) as [k|]; simpl; [|discriminate].
    intros [= <-]. simpl. rewrite (IH k eq_refl). reflexivity.
Qed.

Lemma slice_to_length {A} (l : list A) n :
  (length (slice_to l n) <= length l)%nat
  /\ ((0 <= n)%Z -> (length (slice_to l n) <= Z.to_nat n)%nat).
Proof.
  unfold slice_to. destruct (Z.ltb_spec n 0); rewrite length_take; lia.
Qed.

Section RowCount.
Variable str_other : json -> pystr.
Variable normalize_str : pystr -> exc pystr.
Variable browser : pystr -> exc detail_page.
Variable float_str : pystr -> option Q.

Lemma rows_of_length cards : forall rows,
  rows_of str_other normalize_str browser float_str cards = Ok rows ->
  (length rows <= length cards)%nat.
Proof.
  induction cards as [|card rest IH]; simpl; intros rows.
  - intros [= <-]. simpl. lia.
  - destruct (truthy _).
    + destruct (detail_of _ _ _ _) as [d|]; simpl; [|discriminate].
      destruct (price_value_num _ _) as [p|]; simpl; [|discriminate].
      destruct (rows_of _ _ _ _ rest) as [rs|]; simpl; [|discriminate].
      intros [= <-]. simpl. specialize (IH rs eq_refl). lia.
    + intros H. specialize (IH rows H). lia.
Qed.
End RowCount.

(** X11.  The export never makes more rows than there are cards, and
    with a [max_listings] that is not negative never more than
    [max_listings]. *)
Theorem export_rows_bounded str_other normalize_str browser float_str cards max_listings rows :
  export_rows str_other normalize_str browser float_str cards max_listings = Ok rows ->
  (length rows <= length cards)%nat
  /\ (forall n, max_listings = Some n -> (0 <= n)%Z -> (length rows <= Z.to_nat n)%nat).
Proof.
  unfold export_rows.
  destruct (mapM (add_link normalize_str) cards) as [linked|] eqn:E; [|discriminate].
  simpl. intros H. apply rows_of_length in H.
  apply mapM_exc_length in E.
  split.
  - destruct max_listings as [n|]; [|lia].
    pose proof (proj1 (slice_to_length linked n)). lia.
  - intros n -> Hn. pose proof (proj2 (slice_to_length linked n) Hn). lia.
Qed.

Lemma export_rows_bounded_witness :
  exists rows,
    export_rows no_str canonical failing_browser no_float
      [url_card; url_card; url_card] (Some 2%Z) = Ok rows
    /\ (length rows <= 2)%nat.
Proof.
  destruct (export_rows no_str canonical failing_browser no_float
              [url_card; url_card; url_card] (Some 2%Z)) as [rows|e] eqn:E;
    [|vm_compute in E; discriminate].
  exists rows. split; [reflexivity|].
  apply (proj2 (export_rows_bounded _ _ _ _ _ _ _ E) 2%Z eq_refl). lia.
Defined.

End ExtractorExtras.

(** ** Numbers in text *)

Module NumberExtras.
Import Scraper ExcelExport ReFacts.

Abbreviation all_digits s := (Forall (fun c => is_digit c = true) s).

(** *** Decimal digits are no separators and no white space *)

Lemma is_digit_inv c :
  is_digit c = true -> exists z, In z digit_zeros /\ z <= c /\ c < z + 10.
Proof.
  unfold is_digit, digit_value.
  destruct (List.find _ digit_zeros) as [z|] eqn:E; [|discriminate].
  intros _. apply List.find_some in E as [Hin Hz].
  apply andb_true_iff in Hz as [H1 H2].
  apply N.leb_le in H1. apply N.ltb_lt in H2. eauto.
Qed.

Lemma digit_plain c :
  is_digit c = true -> is_space c = false /\ c <> 44 /\ c <> 46 /\ c <> 45.
Proof.
  intros H. apply is_digit_inv in H as (z & Hin & Hlo & Hhi).
  assert (Hall : forallb (fun z =>
            forallb (fun i => negb (is_space (z + i)) && negb (z + i =? 44)
                              && negb (z + i =? 46) && negb (z + i =? 45))
                    [0; 1; 2; 3; 4; 5; 6; 7; 8; 9]) digit_zeros = true)
    by (vm_compute; reflexivity).
  rewrite forallb_forall in Hall. specialize (Hall z Hin).
  rewrite forallb_forall in Hall. specialize (Hall (c - z)).
  replace (z + (c - z)) with c in Hall by lia.
  assert (Hi : In (c - z) [0; 1; 2; 3; 4; 5; 6; 7; 8; 9]).
  { assert (c - z = 0 \/ c - z = 1 \/ c - z = 2 \/ c - z = 3 \/ c - z = 4 \/ c - z = 5
            \/ c - z = 6 \/ c - z = 7 \/ c - z = 8 \/ c - z = 9) as Hc by lia.
    simpl. intuition auto. }
  specialize (Hall Hi).
  repeat (apply andb_true_iff in Hall as [Hall ?]).
  repeat match goal with
  | H : negb _ = true |- _ => apply negb_true_iff in H
  | H : (_ =? _) = false |- _ => apply N.eqb_neq in H
  end.
  auto.
Qed.

Lemma digits_no_space s : all_digits s -> Forall (fun x => is_space x = false) s.
Proof.
  intros H. eapply Forall_impl; [exact H|]. intros c Hc. apply (digit_plain c Hc).
Qed.

Lemma replace1_keeps old new s : Forall (fun c => c <> old) s -> replace1 old new s = s.
Proof.
  induction 1 as [|c s Hc _ IH]; [reflexivity|].
  unfold replace1 in *. simpl. apply N.eqb_neq in Hc. rewrite Hc, IH. reflexivity.
Qed.

Lemma replace1_app old new a b :
  replace1 old new (a ++ b) = replace1 old new a ++ replace1 old new b.
Proof. apply flat_map_app. Qed.

Lemma replace1_hit old new s : replace1 old new (old :: s) = new ++ replace1 old new s.
Proof. unfold replace1. simpl. rewrite N.eqb_refl. reflexivity. Qed.

Lemma digits_keep old new s :
  old = 44 \/ old = 46 -> all_digits s -> replace1 old new s = s.
Proof.
  intros Hold Hs. apply replace1_keeps.
  eapply Forall_impl; [exact Hs|]. intros c Hc.
  destruct (digit_plain c Hc) as (_ & H44 & H46 & _). destruct Hold; congruence.
Qed.

Lemma take_digits_app a r :
  all_digits a -> match r with [] => True | x :: _ => is_digit x = false end ->
  take_digits (a ++ r) = a /\ drop_digits (a ++ r) = r.
Proof.
  intros Ha Hr. induction Ha as [|c a Hc _ [IH1 IH2]]; simpl.
  - destruct r as [|x r]; [auto|]. simpl. rewrite Hr. auto.
  - rewrite Hc, IH1, IH2. auto.
Qed.

(** *** The number pattern takes a whole number *)

Section Greedy.
Context {A : Type}.
Variable ic : bool.
Variable k : pystr -> caps -> option A.

Lemma star_loop_S (body : pystr -> caps -> (pystr -> caps -> option A) -> option A) n s c :
  star_loop body k (S n) s c
  = match body s c (fun s1 c1 =>
            if (length s1 <? length s)%nat then star_loop body k n s1 c1 else None) with
    | Some a => Some a
    | None => k s c
    end.
Proof. reflexivity. Qed.

Lemma mt_cls_cons cl x s c (k0 : pystr -> caps -> option A) :
  mt ic (Cls cl) (x :: s) c k0 = if cls_match cl x then k0 s c else None.
Proof. reflexivity. Qed.

Lemma mt_cls_nil cl c (k0 : pystr -> caps -> option A) : mt ic (Cls cl) [] c k0 = None.
Proof. reflexivity. Qed.

Lemma star_digits_greedy ds :
  all_digits ds ->
  forall n r c a,
    (length ds <= n)%nat ->
    match r with [] => True | x :: _ => is_digit x = false end ->
    k r c = Some a ->
    star_loop (mt ic (Cls Digit)) k n (ds ++ r) c = Some a.
Proof.
  induction 1 as [|d ds Hd _ IH]; intros n r c a Hn Hr Hk.
  - destruct n as [|n]; [exact Hk|].
    rewrite star_loop_S. change ([] ++ r) with r.
    destruct r as [|x r]; [rewrite mt_cls_nil; exact Hk|].
    rewrite mt_cls_cons. change (cls_match Digit x) with (is_digit x).
    rewrite Hr. exact Hk.
  - destruct n as [|n]; simpl in Hn; [lia|].
    rewrite star_loop_S. change ((d :: ds) ++ r) with (d :: (ds ++ r)).
    rewrite mt_cls_cons. change (cls_match Digit d) with (is_digit d). rewrite Hd.
    rewrite (proj2 (Nat.ltb_lt _ _)) by (simpl; lia).
    rewrite (IH n r c a) by (assumption || lia). reflexivity.
Qed.
End Greedy.

Abbreviation group_re := (Cat (Cls (OneOf (u ".,"))) (Plus (Cls Digit))).

Lemma number_re_unfold {A} ic s c (k : pystr -> caps -> option A) :
  mt ic number_re s c k
  = mt ic (Cls Digit) s c (fun s1 c1 =>
      star_loop (mt ic (Cls Digit))
        (fun s2 c2 => star_loop (mt ic group_re) k (length s2) s2 c2)
        (length s1) s1 c1).
Proof. reflexivity. Qed.

Lemma group_re_unfold {A} ic s c (k : pystr -> caps -> option A) :
  mt ic group_re s c k
  = mt ic (Cls (OneOf (u ".,"))) s c (fun s1 c1 =>
      mt ic (Cls Digit) s1 c1 (fun s2 c2 =>
        star_loop (mt ic (Cls Digit)) k (length s2) s2 c2)).
Proof. reflexivity. Qed.

Lemma star_group_end {A} ic (k : pystr -> caps -> option A) n c :
  star_loop (mt ic group_re) k n [] c = k [] c.
Proof. destruct n; reflexivity. Qed.

Lemma take_whole {B} (s : list B) : take (length s - 0) s = s.
Proof. rewrite Nat.sub_0_r. apply firstn_all. Qed.

Lemma match_digits ic d ds :
  all_digits (d :: ds) ->
  match_at ic number_re (d :: ds)
  = Some {| m_text := d :: ds; m_caps := []; m_rest := [] |}.
Proof.
  intros H. inversion H as [|? ? Hd Hds]; subst.
  unfold match_at. rewrite number_re_unfold, mt_cls_cons.
  change (cls_match Digit d) with (is_digit d). rewrite Hd.
  pose proof (fun k a => star_digits_greedy (A:=rmatch) ic k ds Hds
                           (length ds) [] [] a (le_n _) I) as Hg.
  rewrite app_nil_r in Hg. erewrite Hg.
  - reflexivity.
  - rewrite star_group_end. change (length (@nil N)) with 0%nat.
    rewrite take_whole. reflexivity.
Qed.

Lemma match_two_groups ic a b sep :
  a <> [] -> b <> [] -> all_digits a -> all_digits b -> sep = 44 \/ sep = 46 ->
  match_at ic number_re (a ++ sep :: b)
  = Some {| m_text := a ++ sep :: b; m_caps := []; m_rest := [] |}.
Proof.
  intros Ha Hb Hda Hdb Hsep.
  destruct a as [|d a]; [contradiction|]. destruct b as [|e b]; [contradiction|].
  inversion Hda as [|? ? Hd Hda']; subst. inversion Hdb as [|? ? He Hdb']; subst.
  assert (Hs : is_digit sep = false).
  { destruct (is_digit sep) eqn:E; [|reflexivity].
    destruct (digit_plain sep E) as (_ & H44 & H46 & _). destruct Hsep; congruence. }
  assert (Hc : cls_match (OneOf (u ".,")) sep = true).
  { destruct Hsep as [-> | ->]; vm_compute; reflexivity. }
  unfold match_at. change ((d :: a) ++ sep :: e :: b) with (d :: (a ++ sep :: e :: b)).
  rewrite number_re_unfold, mt_cls_cons.
  change (cls_match Digit d) with (is_digit d). rewrite Hd.
  erewrite (star_digits_greedy ic _ a Hda' _ (sep :: e :: b) []);
    [reflexivity| rewrite length_app; lia | exact Hs |].
  change (length (sep :: e :: b)) with (S (length (e :: b))).
  rewrite star_loop_S, group_re_unfold, mt_cls_cons, Hc, mt_cls_cons.
  change (cls_match Digit e) with (is_digit e). rewrite He.
  pose proof (fun k x => star_digits_greedy (A:=rmatch) ic k b Hdb'
                           (length b) [] [] x (le_n _) I) as Hg.
  rewrite app_nil_r in Hg. erewrite Hg; [reflexivity|].
  change (length (@nil N) <? length (sep :: e :: b))%nat with true. cbv iota.
  rewrite star_group_end. change (length (@nil N)) with 0%nat.
  rewrite take_whole. reflexivity.
Qed.

Lemma search_at_start ic r s m : match_at ic r s = Some m -> search ic r s = Some m.
Proof. intros H. destruct s; simpl; rewrite H; reflexivity. Qed.

Lemma Qred_int n : Qred (n # 1) = n # 1.
Proof.
  unfold Qred.
  pose proof (Z.ggcd_gcd n 1) as Hg. pose proof (Z.ggcd_correct_divisors n 1) as Hd.
  destruct (Z.ggcd n 1) as [g [aa bb]]. simpl in *.
  rewrite Z.gcd_1_r in Hg. subst g. destruct Hd as [Ha Hb].
  rewrite Z.mul_1_l in Ha, Hb. subst. reflexivity.
Qed.

Lemma float_of_digits d ds :
  all_digits (d :: ds) ->
  float_of_decimal (d :: ds) = Some (Z.of_N (int_of_digits (d :: ds)) # 1).
Proof.
  intros H. unfold float_of_decimal.
  destruct (take_digits_app (d :: ds) [] H I) as [Ht Hdr].
  rewrite app_nil_r in Ht, Hdr. rewrite Ht, Hdr, Qred_int. reflexivity.
Qed.

Lemma clean_number_digits d ds :
  all_digits (d :: ds) ->
  _clean_number (Some (d :: ds)) = Some (Z.of_N (int_of_digits (d :: ds)) # 1).
Proof.
  intros H. unfold _clean_number.
  rewrite (strip_id _ (digits_no_space _ H)).
  rewrite (search_at_start _ _ _ _ (match_digits false d ds H)). cbn [m_text].
  rewrite (digits_keep 46 [] _ (or_intror eq_refl) H).
  rewrite (digits_keep 44 (u ".") _ (or_introl eq_refl) H).
  apply float_of_digits, H.
Qed.

(** *** The decimal text of an integer *)

Lemma digit_value_char d :
  d < 10 -> digit_value (N_of_ascii (pretty_N_char d)) = Some d
            /\ 48 <= N_of_ascii (pretty_N_char d) <= 57.
Proof.
  intros H.
  assert (d = 0 \/ d = 1 \/ d = 2 \/ d = 3 \/ d = 4 \/ d = 5 \/ d = 6 \/ d = 7
          \/ d = 8 \/ d = 9) as Hd by lia.
  repeat (destruct Hd as [-> | Hd]; [vm_compute; intuition discriminate|]).
  subst. vm_compute. intuition discriminate.
Qed.

Abbreviation eval_digits start s :=
  (fold_left (fun acc c => 10 * acc + default 0 (digit_value c)) s start).

Lemma pretty_N_go_value x : forall s,
  eval_digits 0 (bytes_of (pretty_N_go x s)) = eval_digits x (bytes_of s).
Proof.
  induction (N.lt_wf_0 x) as [x _ IH]. intros s.
  destruct (decide (x = 0)) as [->|Hx].
  - rewrite pretty_N_go_0. reflexivity.
  - rewrite pretty_N_go_step by lia. rewrite IH by (apply N.div_lt; lia).
    simpl.
    destruct (digit_value_char (x mod 10)) as [-> _];
      [apply N.mod_lt; lia|].
    simpl. f_equal. pose proof (N.div_mod x 10). lia.
Qed.

Lemma pretty_N_go_ascii x : forall s,
  Forall (fun c => 48 <= c <= 57) (bytes_of s) ->
  Forall (fun c => 48 <= c <= 57) (bytes_of (pretty_N_go x s)).
Proof.
  induction (N.lt_wf_0 x) as [x _ IH]. intros s Hs.
  destruct (decide (x = 0)) as [->|Hx].
  - rewrite pretty_N_go_0. exact Hs.
  - rewrite pretty_N_go_step by lia. apply IH; [apply N.div_lt; lia|].
    simpl. constructor; [|exact Hs].
    apply digit_value_char, N.mod_lt. lia.
Qed.

Lemma ascii_digit_is_digit c : 48 <= c <= 57 -> is_digit c = true.
Proof.
  intros H. unfold is_digit, digit_value, digit_zeros. simpl List.find.
  replace ((48 <=? c) && (c <? 48 + 10)) with true; [reflexivity|].
  symmetry. apply andb_true_iff. split; [apply N.leb_le|apply N.ltb_lt]; lia.
Qed.

Lemma str_N_digits (x : N) :
  all_digits (bytes_of (pretty x)) /\ bytes_of (pretty x) <> []
  /\ int_of_digits (bytes_of (pretty x)) = x.
Proof.
  unfold pretty, pretty_N. destruct (decide (x = 0)) as [->|Hx].
  - split; [|split]; [|discriminate|reflexivity].
    constructor; [vm_compute; reflexivity|constructor].
  - split; [|split].
    + eapply Forall_impl; [apply pretty_N_go_ascii; constructor|].
      intros c. apply ascii_digit_is_digit.
    + rewrite pretty_N_go_step by lia.
      assert (Hlen : forall y s, bytes_of s <> [] -> bytes_of (pretty_N_go y s) <> []).
      { clear. intros y. induction (N.lt_wf_0 y) as [y _ IH]. intros s Hs.
        destruct (decide (y = 0)) as [->|Hy]; [rewrite pretty_N_go_0; exact Hs|].
        rewrite pretty_N_go_step by lia. apply IH; [apply N.div_lt; lia|]. discriminate. }
      apply Hlen. discriminate.
    + unfold int_of_digits. rewrite pretty_N_go_value. reflexivity.
Qed.

Lemma str_Z_pos p : str_Z (Zpos p) = bytes_of (pretty (Npos p)).
Proof. reflexivity. Qed.

Lemma str_Z_neg p : str_Z (Zneg p) = 45 :: bytes_of (pretty (Npos p)).
Proof. reflexivity. Qed.

Lemma clean_number_minus d ds :
  all_digits (d :: ds) ->
  _clean_number (Some (45 :: d :: ds)) = Some (Z.of_N (int_of_digits (d :: ds)) # 1).
Proof.
  intros Hd. unfold _clean_number.
  rewrite strip_id by (constructor; [reflexivity|apply digits_no_space, Hd]).
  assert (Hfail : match_at false number_re (45 :: d :: ds) = None) by reflexivity.
  assert (Hs : search false number_re (45 :: d :: ds)
               = Some {| m_text := d :: ds; m_caps := []; m_rest := [] |}).
  { change (search false number_re (45 :: d :: ds))
      with (match match_at false number_re (45 :: d :: ds) with
            | Some m => Some m
            | None => search false number_re (d :: ds)
            end).
    rewrite Hfail. apply search_at_start, match_digits, Hd. }
  rewrite Hs. cbn [m_text].
  rewrite (digits_keep 46 [] _ (or_intror eq_refl) Hd).
  rewrite (digits_keep 44 (u ".") _ (or_introl eq_refl) Hd).
  apply float_of_digits, Hd.
Qed.

(** X12.  [_clean_number] reads the decimal text of an integer as its
    absolute value: the digits are taken and a minus sign in front of
    them is passed over, so a negative number comes out positive. *)
Theorem clean_number_of_integer z :
  _clean_number (Some (str_Z z)) = Some (inject_Z (Z.abs z)).
Proof.
  unfold inject_Z. destruct z as [|p|p].
  - vm_compute. reflexivity.
  - rewrite str_Z_pos. destruct (str_N_digits (Npos p)) as (Hd & Hne & Hv).
    destruct (bytes_of (pretty (N.pos p))) as [|d ds]; [contradiction|].
    rewrite (clean_number_digits d ds Hd), Hv. reflexivity.
  - rewrite str_Z_neg. destruct (str_N_digits (Npos p)) as (Hd & Hne & Hv).
    destruct (bytes_of (pretty (N.pos p))) as [|d ds]; [contradiction|].
    rewrite (clean_number_minus d ds Hd), Hv. reflexivity.
Qed.

(** X13.  A number with a decimal comma loses its decimals on the way
    from the card to the row.  [_clean_number] reads [a,b] as the decimal
    number a.b; [normalize_number] turns it into the text [a.b]; and
    [_clean_number], applied to that text as the export does with the
    features of a card, takes the full stop for a grouping dot and returns
    the integer written [ab]. *)
Theorem decimal_comma_lost_in_export a b :
  a <> [] -> b <> [] -> all_digits a -> all_digits b ->
  normalize_number (a ++ u "," ++ b) = a ++ u "." ++ b
  /\ _clean_number (Some (a ++ u "," ++ b))
     = Some (Qred (Z.of_N (int_of_digits (a ++ b)) # Z.to_pos (10 ^ Z.of_nat (length b))))
  /\ _clean_number (Some (normalize_number (a ++ u "," ++ b)))
     = Some (Z.of_N (int_of_digits (a ++ b)) # 1).
Proof.
  intros Ha Hb Hda Hdb.
  change (u ",") with [44]. change (u ".") with [46]. simpl app.
  assert (Hsp : forall sep, sep = 44 \/ sep = 46 ->
            Forall (fun x => is_space x = false) (a ++ sep :: b)).
  { intros sep Hsep. apply Forall_app. split; [apply digits_no_space, Hda|].
    constructor; [destruct Hsep as [-> | ->]; reflexivity|apply digits_no_space, Hdb]. }
  assert (Hnorm : normalize_number (a ++ 44 :: b) = a ++ 46 :: b).
  { unfold normalize_number. rewrite (strip_id _ (Hsp 44 (or_introl eq_refl))).
    change (u ".") with [46].
    rewrite (replace1_app 46), (digits_keep 46 [] a (or_intror eq_refl) Hda).
    change (44 :: b) with ([44] ++ b).
    rewrite (replace1_app 46 [] [44] b), (digits_keep 46 [] b (or_intror eq_refl) Hdb).
    change (replace1 46 [] [44]) with [44]. simpl app.
    rewrite (replace1_app 44), (digits_keep 44 [46] a (or_introl eq_refl) Hda).
    rewrite replace1_hit, (digits_keep 44 [46] b (or_introl eq_refl) Hdb). reflexivity. }
  split; [exact Hnorm|]. split.
  - unfold _clean_number. rewrite (strip_id _ (Hsp 44 (or_introl eq_refl))).
    destruct (a ++ 44 :: b) as [|x s] eqn:E; [destruct a; discriminate|]. rewrite <- E.
    rewrite (search_at_start _ _ _ _
               (match_two_groups false a b 44 Ha Hb Hda Hdb (or_introl eq_refl))).
    simpl m_text. change (u ".") with [46].
    rewrite (replace1_app 46), (digits_keep 46 [] a (or_intror eq_refl) Hda).
    change (44 :: b) with ([44] ++ b).
    rewrite (replace1_app 46 [] [44] b), (digits_keep 46 [] b (or_intror eq_refl) Hdb).
    change (replace1 46 [] [44]) with [44]. simpl app.
    rewrite (replace1_app 44), (digits_keep 44 [46] a (or_introl eq_refl) Hda).
    rewrite replace1_hit, (digits_keep 44 [46] b (or_introl eq_refl) Hdb). simpl app.
    unfold float_of_decimal.
    destruct (take_digits_app a (46 :: b) Hda eq_refl) as [-> ->].
    rewrite N.eqb_refl. simpl andb.
    replace (forallb is_digit b) with true
      by (symmetry; apply forallb_forall; intros c Hc;
          rewrite Forall_forall in Hdb; apply Hdb, list_elem_of_In, Hc).
    rewrite bool_decide_eq_false_2 by (destruct a; [contradiction|discriminate]).
    reflexivity.
  - rewrite Hnorm. unfold _clean_number.
    rewrite (strip_id _ (Hsp 46 (or_intror eq_refl))).
    destruct (a ++ 46 :: b) as [|x s] eqn:E; [destruct a; discriminate|]. rewrite <- E.
    rewrite (search_at_start _ _ _ _
               (match_two_groups false a b 46 Ha Hb Hda Hdb (or_intror eq_refl))).
    simpl m_text. change (u ".") with [46].
    rewrite (replace1_app 46), (digits_keep 46 [] a (or_intror eq_refl) Hda).
    rewrite replace1_hit, (digits_keep 46 [] b (or_intror eq_refl) Hdb). simpl app.
    assert (Hab : all_digits (a ++ b)) by (apply Forall_app; auto).
    rewrite (digits_keep 44 [46] _ (or_introl eq_refl) Hab).
    destruct (a ++ b) as [|d ds] eqn:Eab; [destruct a; [contradiction|discriminate]|].
    apply float_of_digits, Hab.
Qed.

Lemma decimal_comma_lost_in_export_witness :
  _clean_number (Some (u "12,5")) = Some (25 # 2)%Q
  /\ _clean_number (Some (normalize_number (u "12,5"))) = Some 125%Q.
Proof.
  destruct (decimal_comma_lost_in_export (u "12") (u "5")
              ltac:(discriminate) ltac:(discriminate)
              ltac:(repeat constructor) ltac:(repeat constructor)) as (_ & H1 & H2).
  split; [exact H1|exact H2].
Defined.

End NumberExtras.

(** ** Text fields, labels and rows *)

Module TextExtras.
Import Scraper ExcelExport ReFacts PatternFacts.

(** *** Stripping *)

Lemma lstrip_head s : match lstrip s with [] => True | c :: _ => is_space c = false end.
Proof.
  induction s as [|c s IH]; simpl; [exact I|].
  destruct (is_space c) eqn:E; [exact IH|exact E].
Qed.

Lemma lstrip_fixed s :
  match s with [] => True | c :: _ => is_space c = false end -> lstrip s = s.
Proof. destruct s as [|c s]; simpl; [reflexivity|]. intros ->. reflexivity. Qed.

Lemma lstrip_idem s : lstrip (lstrip s) = lstrip s.
Proof. apply lstrip_fixed, lstrip_head. Qed.

Lemma lstrip_suffix s : exists pre, s = pre ++ lstrip s.
Proof.
  induction s as [|c s [pre IH]]; simpl; [exists []; reflexivity|].
  destruct (is_space c); [|exists []; reflexivity].
  exists (c :: pre). simpl. rewrite <- IH. reflexivity.
Qed.

Lemma strip_inside s : exists pre post, s = pre ++ strip s ++ post.
Proof.
  unfold strip, rstrip.
  destruct (lstrip_suffix s) as [pre Hpre].
  destruct (lstrip_suffix (rev (lstrip s))) as [post Hpost].
  exists pre, (rev post). rewrite Hpre at 1. f_equal.
  rewrite <- rev_app_distr, <- Hpost, rev_involutive. reflexivity.
Qed.

Lemma strip_trimmed s : lstrip (strip s) = strip s /\ rstrip (strip s) = strip s.
Proof.
  unfold strip, rstrip. split.
  - apply lstrip_fixed.
    destruct (lstrip_suffix (rev (lstrip s))) as [pre Hpre].
    pose proof (lstrip_head s) as Hh.
    apply (f_equal (@rev N)) in Hpre. rewrite rev_involutive, rev_app_distr in Hpre.
    destruct (rev (lstrip (rev (lstrip s)))) as [|c t]; [exact I|].
    rewrite Hpre in Hh. exact Hh.
  - rewrite rev_involutive, lstrip_idem. reflexivity.
Qed.

Lemma strip_fixed s : lstrip s = s -> rstrip s = s -> strip s = s.
Proof. unfold strip. intros -> ->. reflexivity. Qed.

Lemma replace1_removed old s c : c ∈ replace1 old [] s -> c <> old /\ c ∈ s.
Proof.
  unfold replace1. rewrite !list_elem_of_In, in_flat_map.
  intros (x & Hx & Hc). destruct (N.eqb_spec x old) as [->|Hne]; [destruct Hc|].
  destruct Hc as [<-|[]]. auto.
Qed.

(** X14.  The text [parse_text] returns has no newline and no tab, has
    no white space at either end, and is left as it is by a second
    [parse_text]. *)
Theorem parse_text_is_clean text :
  (10 ∉ parse_text text)
  /\ (9 ∉ parse_text text)
  /\ lstrip (parse_text text) = parse_text text
  /\ rstrip (parse_text text) = parse_text text
  /\ parse_text (parse_text text) = parse_text text.
Proof.
  assert (Hin : forall c, c ∈ parse_text text -> c <> 9 /\ c <> 10).
  { intros c Hc. unfold parse_text in Hc.
    destruct (strip_inside (replace1 9 [] (replace1 10 [] text))) as (pre & post & Hs).
    assert (Hc' : c ∈ replace1 9 [] (replace1 10 [] text)).
    { rewrite Hs. apply elem_of_app. right. apply elem_of_app. left. exact Hc. }
    apply replace1_removed in Hc' as [H9 Hc'].
    apply replace1_removed in Hc' as [H10 _]. auto. }
  destruct (strip_trimmed (replace1 9 [] (replace1 10 [] text))) as [Hl Hr].
  fold (parse_text text) in Hl, Hr.
  split; [intros H; apply Hin in H as [_ H]; congruence|].
  split; [intros H; apply Hin in H as [H _]; congruence|].
  split; [exact Hl|]. split; [exact Hr|].
  unfold parse_text at 1.
  rewrite (NumberExtras.replace1_keeps 10), (NumberExtras.replace1_keeps 9).
  - apply strip_fixed; assumption.
  - apply Forall_forall. intros c Hc. apply (Hin c Hc).
  - apply Forall_forall. intros c Hc. apply (Hin c Hc).
Qed.

(** *** Labels *)

Lemma estate_field_ignored estate label text :
  ignored_label label = true -> estate_field estate (label, text) = estate.
Proof. unfold estate_field, ignored_label. intros ->. reflexivity. Qed.

Lemma fold_estate_filter datas : forall estate,
  fold_left estate_field datas estate
  = fold_left estate_field
      (List.filter (fun d => negb (ignored_label (fst d))) datas) estate.
Proof.
  induction datas as [|[label text] datas IH]; intros estate; [reflexivity|].
  cbn [List.filter fst fold_left].
  destruct (ignored_label label) eqn:E; cbn [negb fold_left].
  - rewrite (estate_field_ignored _ _ _ E). apply IH.
  - apply IH.
Qed.

(** X15.  The elements labelled [POSTING_CARD_PUBLISHER] or with a label
    that starts with [CARD_] leave no trace in the card: [parse_estate]
    returns the same card with and without them. *)
Theorem parse_estate_skips_ignored bs4 url datas :
  parse_estate bs4 {| data_to_posting := url; data_qa := datas |}
  = parse_estate bs4
      {| data_to_posting := url;
         data_qa := List.filter (fun d => negb (ignored_label (fst d))) datas |}.
Proof.
  unfold parse_estate. cbn [data_to_posting data_qa].
  destruct (first (get_attribute_list bs4 url)) as [v|e]; [|reflexivity].
  cbn [mbind exc_bind mret exc_ret]. f_equal. apply fold_estate_filter.
Qed.

(** *** Numbers *)

(** X16.  [_clean_number] returns [None] for every text without a
    decimal digit, the empty text and the all-blank text included. *)
Theorem clean_number_without_digits raw :
  digits_in raw = [] -> _clean_number (Some raw) = None.
Proof.
  intros H. unfold _clean_number.
  destruct (strip raw) as [|c s] eqn:E; [reflexivity|]. rewrite <- E.
  destruct (search false number_re (strip raw)) as [m|] eqn:Es; [|reflexivity].
  exfalso. apply search_inside in Es as (pre & post & Hs & Hmat).
  apply mat_number_head in Hmat as (d & w' & Hw & Hd).
  destruct (strip_inside raw) as (pre' & post' & Hraw).
  rewrite Hraw, Hs, Hw, !digits_in_app in H. simpl in H. rewrite Hd in H.
  apply app_eq_nil in H as [_ H]. apply app_eq_nil in H as [H _].
  apply app_eq_nil in H as [_ H]. discriminate.
Qed.

Lemma clean_number_without_digits_witness :
  _clean_number (Some (u "  a consultar ")) = None.
Proof. apply clean_number_without_digits. vm_compute. reflexivity. Defined.

(** *** Rows *)

Section RowOrder.
Variable str_other : json -> pystr.
Variable normalize_str : pystr -> exc pystr.
Variable browser : pystr -> exc detail_page.
Variable float_str : pystr -> option Q.

(** X17.  The export makes one row for each card that has a link, in
    the order of the cards, and every row carries the location, price,
    expenses and description of its own card, unchanged. *)
Theorem rows_follow_cards cards rows :
  rows_of str_other normalize_str browser float_str cards = Ok rows ->
  Forall2 (fun card row =>
             location row = dget card (u "location")
             /\ price_value row = dget card (u "price_value")
             /\ price_type row = dget card (u "price_type")
             /\ expenses_value row = dget card (u "expenses_value")
             /\ expenses_type row = dget card (u "expenses_type")
             /\ description row = dget card (u "description"))
          (List.filter has_link cards) rows.
Proof.
  revert rows. induction cards as [|card rest IH]; simpl; intros rows.
  - intros [= <-]. constructor.
  - unfold has_link at 1.
    destruct (truthy (por (dget card (u "link")) (dget card (u "url")))).
    + destruct (detail_of _ _ _ _) as [d|]; simpl; [|discriminate].
      destruct (price_value_num _ _) as [p|]; simpl; [|discriminate].
      destruct (rows_of _ _ _ _ rest) as [rs|]; simpl; [|discriminate].
      intros [= <-]. constructor; [|apply IH; reflexivity].
      repeat split.
    + apply IH.
Qed.
End RowOrder.

Lemma rows_follow_cards_witness :
  exists rows,
    rows_of no_str canonical failing_browser no_float [url_card; ∅; url_card] = Ok rows
    /\ length rows = 2%nat.
Proof.
  destruct (rows_of no_str canonical failing_browser no_float [url_card; ∅; url_card])
    as [rows|e] eqn:E; [|vm_compute in E; discriminate].
  exists rows. split; [reflexivity|].
  pose proof (rows_follow_cards _ _ _ _ _ _ E) as H.
  apply Forall2_length in H. rewrite <- H. vm_compute. reflexivity.
Defined.

(** *** A listing page that cannot be fetched *)

Section Failure.
Variable browser : pystr -> exc listing_page.
Variable bs4 : missing_attribute.
Variable base_url : pystr.
Variable estates_quantity : N.

Lemma scrap_loop_fails k : forall fuel st e,
  (k < fuel)%nat ->
  (forall j, (j <= k)%nat ->
     N.of_nat (length (estates st
                       ++ cards_of_pages browser bs4 base_url (page_number st) j))
     < estates_quantity) ->
  (forall j, (j < k)%nat ->
     exists new, scrap_page browser bs4 base_url (page_number st + j) = Ok new) ->
  scrap_page browser bs4 base_url (page_number st + k) = Raise e ->
  scrap_loop browser bs4 base_url fuel estates_quantity st = Some (Raise e).
Proof.
  induction k as [|k IH]; intros fuel st e Hfuel Hlow Hok Hfail;
    (destruct fuel as [|fuel]; [lia|]); simpl.
  - pose proof (Hlow 0%nat (le_n 0)) as H0. simpl in H0. rewrite app_nil_r in H0.
    destruct (N.ltb_spec (N.of_nat (length (estates st))) estates_quantity); [|lia].
    rewrite Nat.add_0_r in Hfail. rewrite Hfail. reflexivity.
  - pose proof (Hlow 0%nat ltac:(lia)) as H0. simpl in H0. rewrite app_nil_r in H0.
    destruct (N.ltb_spec (N.of_nat (length (estates st))) estates_quantity); [|lia].
    destruct (Hok 0%nat ltac:(lia)) as [new Hnew]. rewrite Nat.add_0_r in Hnew.
    rewrite Hnew. apply IH; simpl.
    + lia.
    + intros j Hj. specialize (Hlow (S j) ltac:(lia)). simpl in Hlow.
      rewrite Hnew in Hlow. rewrite <- app_assoc. exact Hlow.
    + intros j Hj. destruct (Hok (S j) ltac:(lia)) as [new' Hnew'].
      exists new'. rewrite <- Hnew'. f_equal. lia.
    + rewrite <- Hfail. f_equal. lia.
Qed.
End Failure.

(** X18.  When the fetch of a listing page raises while the cards of the
    pages before it are still short of the announced quantity,
    [scrap_website] raises the same exception: the failure is not caught,
    and the cards of the earlier pages are not returned. *)
Theorem listing_fetch_failure_propagates browser bs4 base_url estates_quantity k e fuel :
  get_estates_quantity browser base_url = Ok estates_quantity ->
  (forall j, (j <= k)%nat ->
     N.of_nat (length (cards_of_pages browser bs4 base_url 1 j)) < estates_quantity) ->
  (forall j, (j < k)%nat ->
     exists new, scrap_page browser bs4 base_url (1 + j) = Ok new) ->
  scrap_page browser bs4 base_url (1 + k) = Raise e ->
  (k < fuel)%nat ->
  scrap_website browser bs4 base_url fuel = Some (Raise e).
Proof.
  intros Hq Hlow Hok Hfail Hfuel. unfold scrap_website. rewrite Hq.
  apply (scrap_loop_fails browser bs4 base_url estates_quantity k); simpl; assumption.
Qed.

Lemma listing_fetch_failure_propagates_witness :
  scrap_website broken_browser AsNone (u "casas") 9
  = Some (Raise {| exn_type := u "TimeoutError"; exn_msg := u "timed out" |}).
Proof.
  apply (listing_fetch_failure_propagates broken_browser AsNone (u "casas") 45 1).
  - vm_compute. reflexivity.
  - intros [|[|j]] Hj; try lia; vm_compute; reflexivity.
  - intros [|j] Hj; [|lia]. eexists. vm_compute. reflexivity.
  - vm_compute. reflexivity.
  - lia.
Defined.

End TextExtras.


(** ** The limits of the number conversions *)

Module LimitExtras.
Import Scraper ExcelExport.

(** X19.  A price of 309 digits passes [parse_currency_value] as an
    integer, and an integer price of that size stops the export: its
    conversion raises [OverflowError], which the handler around it does
    not name, whether the detail page of the card was fetched or not, and
    no row is made for this card nor for the cards after it. *)
Theorem huge_price_aborts_export :
  parse_currency_value (u "USD " ++ repeat 57 309) = (PInt (10 ^ 309 - 1), PStr (u "USD"))
  /\ forall str_other normalize_str browser float_str card rest l z,
       let link := por (dget card (u "link")) (dget card (u "url")) in
       truthy link = true ->
       normalize_str (default [] (str_pyval link)) = Ok l ->
       dget card (u "price_value") = PInt z ->
       (2 ^ 1024 - 2 ^ 970 <= Z.abs z)%Z ->
       rows_of str_other normalize_str browser float_str (card :: rest)
       = Raise OverflowError.
Proof.
  split; [vm_compute; reflexivity|].
  intros str_other normalize_str browser float_str card rest l z link Ht Hl Hp Hz.
  rewrite (ExportFacts.rows_of_linked _ _ _ _ _ _ Ht). fold link.
  destruct (ExportFacts.detail_of_total str_other normalize_str browser _ _ Hl) as [d Hd].
  rewrite Hd, Hp. simpl.
  rewrite (ExportFacts.float_of_int_overflow z Hz). reflexivity.
Qed.

Lemma huge_price_aborts_export_witness :
  rows_of no_str canonical failing_browser no_float
    [<[u "price_value" := PInt (10 ^ 309 - 1)]> url_card; url_card]
  = Raise OverflowError.
Proof.
  apply (proj2 huge_price_aborts_export no_str canonical failing_browser no_float
           (<[u "price_value" := PInt (10 ^ 309 - 1)]> url_card) [url_card]
           (u "https://www.zonaprop.com.ar/propiedades/a.html") (10 ^ 309 - 1)%Z).
  - vm_compute. reflexivity.
  - vm_compute. reflexivity.
  - vm_compute. reflexivity.
  - vm_compute. discriminate.
Defined.

(** X20.  A number of more than 4300 digits is refused by [int]: when
    the first numeric token of a text, its dots removed, is that long,
    [parse_currency_value] returns the text and [None], and
    [get_estates_quantity], which has no handler, raises the
    [ValueError] on a heading with that text. *)
Theorem long_number_is_refused text tok l :
  map m_text (finditer false count_re text) = tok :: l ->
  (4300 < length (replace1 46 [] tok))%nat ->
  parse_currency_value text = (PStr text, PNone)
  /\ forall browser base_url page h1s,
       browser (base_url ++ HTML_EXTENSION) = Ok page ->
       h1_texts page = text :: h1s ->
       get_estates_quantity browser base_url
       = Raise (ValueError (length (replace1 46 [] tok))).
Proof.
  intros Hfind Hlen.
  assert (Hint : int_of_text (replace1 46 [] tok)
                 = Raise (ValueError (length (replace1 46 [] tok)))).
  { unfold int_of_text. apply Nat.ltb_lt in Hlen. rewrite Hlen. reflexivity. }
  split.
  - unfold parse_currency_value, parse_currency_try. rewrite Hfind. simpl.
    rewrite Hint. reflexivity.
  - intros browser base_url page h1s Hb Hh.
    unfold get_estates_quantity. rewrite Hb. simpl. rewrite Hh. simpl.
    rewrite Hfind. simpl. exact Hint.
Qed.

Lemma long_number_is_refused_witness :
  parse_currency_value (repeat 49 4301) = (PStr (repeat 49 4301), PNone).
Proof.
  apply (long_number_is_refused (repeat 49 4301) (repeat 49 4301) []).
  - vm_compute. reflexivity.
  - apply Nat.ltb_lt. vm_compute. reflexivity.
Defined.

End LimitExtras.
